(** * mavi.ai: the chat controller (src/components/Chat.jsx) and the
      Gemini wrapper it imports as '../gemini' (unnamed/part_005), as a
      shallow embedding.

    JavaScript strings are sequences of UTF-16 code units; React state is a
    record; an [async] function is a program in continuation-passing style
    whose [await]s park a continuation until the environment settles the
    promise; a [try]/[catch] is a pair of continuations. *)

From Stdlib Require Import List ZArith NArith Bool Lia String Ascii Sorted Permutation.
Import ListNotations.

(* ------------------------------------------------------------------ *)
(** ** JavaScript strings *)

Module Js.

(** A string is its list of UTF-16 code units. *)
Definition jsstring := list N.

(** A string literal of the source made of ASCII characters only. *)
Definition lit (s : string) : jsstring :=
  map N_of_ascii (list_ascii_of_string s).

Fixpoint eqb (a b : jsstring) : bool :=
  match a, b with
  | [], [] => true
  | x :: a', y :: b' => N.eqb x y && eqb a' b'
  | _, _ => false
  end.

(** ECMAScript WhiteSpace and LineTerminator code points, the characters
    [String.prototype.trim] strips.  All of them are in the BMP, so the test
    is per code unit. *)
Definition is_white (c : N) : bool :=
  (  N.eqb c 9 || N.eqb c 10 || N.eqb c 11 || N.eqb c 12 || N.eqb c 13
  || N.eqb c 32 || N.eqb c 160 || N.eqb c 5760
  || (N.leb 8192 c && N.leb c 8202)
  || N.eqb c 8232 || N.eqb c 8233 || N.eqb c 8239 || N.eqb c 8287
  || N.eqb c 12288 || N.eqb c 65279)%bool.

Fixpoint trimStart (s : jsstring) : jsstring :=
  match s with
  | [] => []
  | c :: r => if is_white c then trimStart r else s
  end.

Fixpoint trimEnd (s : jsstring) : jsstring :=
  match s with
  | [] => []
  | c :: r =>
      match trimEnd r with
      | [] => if is_white c then [] else [c]
      | r' => c :: r'
      end
  end.

(** [s.trim()] *)
Definition trim (s : jsstring) : jsstring := trimEnd (trimStart s).

(** A string is truthy when it is not empty. *)
Definition truthy (s : jsstring) : bool :=
  match s with [] => false | _ :: _ => true end.

Fixpoint startsWith (needle hay : jsstring) : bool :=
  match needle, hay with
  | [], _ => true
  | _ :: _, [] => false
  | x :: n', y :: h' => N.eqb x y && startsWith n' h'
  end.

(** [hay.includes(needle)] *)
Fixpoint includes (hay needle : jsstring) : bool :=
  startsWith needle hay ||
  match hay with
  | [] => false
  | _ :: h' => includes h' needle
  end.

(** A thrown value, seen through the one property the code reads:
    [error.message], which is [undefined] on a value that is not an Error. *)
Record JsError := mkError { message : option jsstring }.

(** [new Error(msg)] *)
Definition Error (msg : jsstring) : JsError := mkError (Some msg).

(** [error.message && p(error.message)] as a condition. *)
Definition message_and (e : JsError) (p : jsstring -> bool) : bool :=
  match message e with
  | Some m => truthy m && p m
  | None => false
  end.

(** [error.message || fallback] *)
Definition message_or (e : JsError) (fallback : jsstring) : jsstring :=
  match message e with
  | Some m => if truthy m then m else fallback
  | None => fallback
  end.

End Js.
Import Js.

(* ------------------------------------------------------------------ *)
(** ** Data of the chat component *)

(** The [sender] field: ['user'] or ['ai']. *)
Inductive Sender := sender_user | sender_ai.

(** An element of the [messages] state: [{ text, sender }]. *)
Record DisplayMessage := mkMsg { text : jsstring; sender : Sender }.

(** The [user] prop, a Firebase user object.  [ref] stands for the object's
    reference: React compares effect dependencies with [Object.is], which on
    objects compares references. *)
Record User := mkUser { ref : nat; uid : jsstring }.

(** A document of the [chats] collection. *)
Record ChatDoc := mkDoc {
  userId : jsstring;
  userPrompt : jsstring;
  aiResponse : jsstring;
  timestamp : Z
}.

(** An element of [chatHistory] in loadChatHistory. *)
Record HistoryEntry := mkEntry {
  h_userPrompt : jsstring;
  h_aiResponse : jsstring;
  h_timestamp : Z
}.

(** The three state variables of [Chat]. *)
Record ChatState := mkChat {
  messages : list DisplayMessage;
  input : jsstring;
  loading : bool
}.

Definition initialChat : ChatState := mkChat [] [] false.

(* ------------------------------------------------------------------ *)
(** ** Asynchronous programs *)

(** What a settled promise delivers. *)
Inductive Settled (A : Type) :=
| Fulfilled (a : A)
| Rejected (e : JsError).
Arguments Fulfilled {A} a.
Arguments Rejected {A} e.

(** The statements the two source files execute.  An [Await...] node is a
    call to an external service followed by [await]: the rest of the function
    is the continuation.  [AddDoc] is the call whose promise is not awaited:
    only its [.catch] handler is kept. *)
Inductive Prog : Type :=
| Done
| SetMessages (f : list DisplayMessage -> list DisplayMessage) (k : Prog)
| SetInput (s : jsstring) (k : Prog)
| SetLoading (b : bool) (k : Prog)
| ConsoleError (label : jsstring) (e : JsError) (k : Prog)
| NewDate (k : Z -> Prog)
| AddDoc (d : ChatDoc) (onRejected : JsError -> Prog) (k : Prog)
| AwaitGenerateContent (prompt : jsstring) (k : Settled jsstring -> Prog)
| AwaitGetDocs (owner : jsstring) (k : Settled (list ChatDoc) -> Prog).

(* ------------------------------------------------------------------ *)
(** ** The Gemini wrapper (unnamed/part_005) *)

Module Gemini.

Definition warning_sign : jsstring := [9888; 65039]%N.

Definition EMPTY_PROMPT : jsstring := lit "Prompt cannot be empty".

Definition QUOTA_MESSAGE : jsstring :=
  warning_sign ++ lit " API Quota Exceeded! Your free tier limit has been reached. Please wait 24 hours for quota reset or upgrade your API key.".

Definition RATE_LIMIT_MESSAGE : jsstring :=
  warning_sign ++ lit " Rate Limit Exceeded! Too many requests. Please wait a few minutes and try again.".

(** The [catch] block of generateResponse: every path throws; this is the
    value thrown. *)
Definition rethrown (error : JsError) : JsError :=
  if message_and error (fun m => includes m (lit "quota")) then
    Error QUOTA_MESSAGE
  else if message_and error (fun m => includes m (lit "429")
                                      || includes m (lit "Too Many Requests")) then
    Error RATE_LIMIT_MESSAGE
  else error.

(** [generateResponse(prompt)], with the caller's continuations for the
    value returned and for the value thrown.  [model.generateContent],
    [await result.response] and [response.text()] are one external call: a
    failure of any of them lands in the same [catch]. *)
Definition generateResponse (prompt : jsstring)
    (returns : jsstring -> Prog) (throws : JsError -> Prog) : Prog :=
  let catch error :=
    ConsoleError (lit "Gemini API Error:") error (throws (rethrown error)) in
  if negb (truthy prompt) || (N.of_nat (List.length (trim prompt)) =? 0)%N then
    catch (Error EMPTY_PROMPT)
  else
    AwaitGenerateContent prompt (fun result =>
      match result with
      | Fulfilled text => returns text
      | Rejected error => catch error
      end).

End Gemini.

(* ------------------------------------------------------------------ *)
(** ** src/components/Chat.jsx *)

Module Chat.

Definition FALLBACK_MESSAGE : jsstring :=
  lit "Sorry, I encountered an error. Please try again.".

(** The body of the first effect, lines 44-80. *)
Definition loadChatHistory (user : option User) : Prog :=
  match user with
  | None => Done
  | Some user =>
      AwaitGetDocs (uid user) (fun result =>
        match result with
        | Fulfilled querySnapshot =>
            let chatHistory :=
              map (fun data => mkEntry (userPrompt data) (aiResponse data)
                                       (timestamp data)) querySnapshot in
            let formattedMessages :=
              flat_map (fun chat =>
                          [ mkMsg (h_userPrompt chat) sender_user;
                            mkMsg (h_aiResponse chat) sender_ai ]) chatHistory in
            SetMessages (fun _ => formattedMessages) Done
        | Rejected error =>
            ConsoleError (lit "Error loading chat history:") error Done
        end)
  end.

(** [handleSend], lines 94-139, a closure over the [user] prop and the
    [input] and [loading] state of the render it was created in.  The route
    in App.jsx renders [Chat] only with a signed-in user, so [user.uid] is
    defined. *)
Definition handleSend (user : User) (input : jsstring) (loading : bool) : Prog :=
  if negb (truthy (trim input)) || loading then Done
  else
    let userMessage := trim input in
    SetInput [] (
    SetMessages (fun prev => prev ++ [mkMsg userMessage sender_user]) (
    SetLoading true (
    Gemini.generateResponse userMessage
      (fun aiResponse =>
         SetMessages (fun prev => prev ++ [mkMsg aiResponse sender_ai]) (
         SetLoading false (
         NewDate (fun now =>
         AddDoc (mkDoc (uid user) userMessage aiResponse now)
                (fun error =>
                   ConsoleError (lit "Error saving to Firestore:") error Done)
                Done))))
      (fun error =>
         ConsoleError (lit "Error generating response:") error (
         let errorMessage := message_or error FALLBACK_MESSAGE in
         SetMessages (fun prev => prev ++ [mkMsg errorMessage sender_ai]) (
         SetLoading false Done)))))).

End Chat.

(* ------------------------------------------------------------------ *)
(** ** The environment: Firestore, the event loop, React *)

(** Calls that leave the component. *)
Inductive Event :=
| CallGenerateContent (prompt : jsstring)
| CallGetDocs (owner : jsstring)
| CallAddDoc (d : ChatDoc)
| LogError (label : jsstring) (e : JsError).

(** A promise not settled yet, with what runs when it settles. *)
Inductive Task :=
| GenerateContentCall (prompt : jsstring) (k : Settled jsstring -> Prog)
| GetDocsCall (owner : jsstring) (k : Settled (list ChatDoc) -> Prog)
| AddDocCall (d : ChatDoc) (onRejected : JsError -> Prog).

Definition set_messages (c : ChatState) (m : list DisplayMessage) : ChatState :=
  mkChat m (input c) (loading c).
Definition set_input (c : ChatState) (s : jsstring) : ChatState :=
  mkChat (messages c) s (loading c).
Definition set_loading (c : ChatState) (b : bool) : ChatState :=
  mkChat (messages c) (input c) b.

(** Runs a program up to its next [await]: the new state, the calls made and
    the promises left pending. *)
Fixpoint run (p : Prog) (now : Z) (c : ChatState)
  : ChatState * list Event * list Task :=
  match p with
  | Done => (c, [], [])
  | SetMessages f k => run k now (set_messages c (f (messages c)))
  | SetInput s k => run k now (set_input c s)
  | SetLoading b k => run k now (set_loading c b)
  | ConsoleError label e k =>
      let '(c', ev, ts) := run k now c in (c', LogError label e :: ev, ts)
  | NewDate k => run (k now) now c
  | AddDoc d onRejected k =>
      let '(c', ev, ts) := run k now c in
      (c', CallAddDoc d :: ev, AddDocCall d onRejected :: ts)
  | AwaitGenerateContent prompt k =>
      (c, [CallGenerateContent prompt], [GenerateContentCall prompt k])
  | AwaitGetDocs owner k =>
      (c, [CallGetDocs owner], [GetDocsCall owner k])
  end.

(** The part of Cloud Firestore the component relies on: a collection is the
    list of its documents. *)
Module Firestore.

Fixpoint insert (d : ChatDoc) (l : list ChatDoc) : list ChatDoc :=
  match l with
  | [] => [d]
  | x :: r =>
      if (timestamp d <=? timestamp x)%Z then d :: l else x :: insert d r
  end.

(** [orderBy('timestamp', 'asc')].  The source fixes the order only up to
    documents of equal timestamp (the store breaks such ties by document id,
    which the component never sees).  This function is one ascending order,
    the one that keeps ties in the order of the collection; that choice is
    used only to run the component: what is proved of the order of a loaded
    history either holds for every ascending order of the documents, or is
    stated under hypotheses that leave a new document in no tie. *)
Definition orderBy_timestamp_asc (l : list ChatDoc) : list ChatDoc :=
  fold_right insert [] l.

(** [where('userId', '==', owner)] *)
Definition where_userId (owner : jsstring) (l : list ChatDoc) : list ChatDoc :=
  filter (fun d => Js.eqb (userId d) owner) l.

(** The query of lines 48-52 on the [chats] collection. *)
Definition query (chats : list ChatDoc) (owner : jsstring) : list ChatDoc :=
  orderBy_timestamp_asc (where_userId owner chats).

End Firestore.

(** One mounted [Chat] component and what surrounds it: the pending
    promises, the [chats] collection, the clock and the calls made so far. *)
Record World := mkWorld {
  chat : ChatState;
  prop_user : option User;   (* the [user] prop of the last render *)
  pending : list Task;
  chats : list ChatDoc;      (* the Firestore collection *)
  clock : Z;
  trace : list Event
}.

Definition initialWorld (chats0 : list ChatDoc) (clock0 : Z) : World :=
  mkWorld initialChat None [] chats0 clock0 [].

(** Runs a handler or a continuation in the world. *)
Definition perform (p : Prog) (w : World) : World :=
  let '(c, ev, ts) := run p (clock w) (chat w) in
  mkWorld c (prop_user w) (pending w ++ ts) (chats w) (clock w) (trace w ++ ev).

(** [Object.is] on two values of the [user] prop. *)
Definition Object_is (a b : User) : bool := Nat.eqb (ref a) (ref b).

(** The dependency array [[user]] of the first effect: the effect runs after
    the first render and after a render whose [user] is another object. *)
Definition deps_changed (prev : option User) (u : User) : bool :=
  match prev with
  | None => true
  | Some u' => negb (Object_is u' u)
  end.

(** React renders [<Chat user={u} />] and then runs the first effect when
    its dependency changed.  The second run of effects that React makes in
    development under StrictMode is not modelled. *)
Definition render (u : User) (w : World) : World :=
  let w' := mkWorld (chat w) (Some u) (pending w) (chats w) (clock w) (trace w) in
  if deps_changed (prop_user w) u
  then perform (Chat.loadChatHistory (Some u)) w'
  else w'.

Definition remove_nth {A} (i : nat) (l : list A) : list A :=
  firstn i l ++ skipn (S i) l.

Definition take_task (i : nat) (w : World) : World :=
  mkWorld (chat w) (prop_user w) (remove_nth i (pending w)) (chats w)
          (clock w) (trace w).

(** How the environment settles a pending promise. *)
Inductive Reply :=
| GenerateContentReply (r : Settled jsstring)
| GetDocsReply (failure : option JsError)
| AddDocReply (failure : option JsError).

Inductive Label :=
| Tick (dt : N)
| Render (u : User)
| Change (value : jsstring)   (* onChange of the textarea *)
| Send                        (* the button or the Enter key: handleSend() *)
| Settle (i : nat) (r : Reply).

Definition settle (t : Task) (r : Reply) (w : World) : option World :=
  match t, r with
  | GenerateContentCall _ k, GenerateContentReply r => Some (perform (k r) w)
  | GetDocsCall owner k, GetDocsReply None =>
      Some (perform (k (Fulfilled (Firestore.query (chats w) owner))) w)
  | GetDocsCall _ k, GetDocsReply (Some e) => Some (perform (k (Rejected e)) w)
  | AddDocCall d _, AddDocReply None =>
      Some (mkWorld (chat w) (prop_user w) (pending w) (chats w ++ [d])
                    (clock w) (trace w))
  | AddDocCall _ onRejected, AddDocReply (Some e) =>
      Some (perform (onRejected e) w)
  | _, _ => None
  end.

(** One step of the event loop: time passes, React renders, the user types
    or sends, a promise settles.  A handler reads the state of the latest
    render: React commits the updates of one event before the next event is
    dispatched. *)
Definition step (w : World) (l : Label) : option World :=
  match l with
  | Tick dt =>
      Some (mkWorld (chat w) (prop_user w) (pending w) (chats w)
                    (clock w + Z.of_N dt) (trace w))
  | Render u => Some (render u w)
  | Change value =>
      Some (mkWorld (set_input (chat w) value) (prop_user w) (pending w)
                    (chats w) (clock w) (trace w))
  | Send =>
      match prop_user w with
      | Some u =>
          Some (perform (Chat.handleSend u (input (chat w)) (loading (chat w))) w)
      | None => None
      end
  | Settle i r =>
      match nth_error (pending w) i with
      | Some t => settle t r (take_task i w)
      | None => None
      end
  end.

Fixpoint steps (w : World) (ls : list Label) : option World :=
  match ls with
  | [] => Some w
  | l :: ls' =>
      match step w l with
      | Some w' => steps w' ls'
      | None => None
      end
  end.

Inductive reachable : World -> Prop :=
| reachable_initial chats0 clock0 : reachable (initialWorld chats0 clock0)
| reachable_step w l w' : reachable w -> step w l = Some w' -> reachable w'.

(* ------------------------------------------------------------------ *)
(** ** Vocabulary of the properties *)

(** The two bubbles of one turn: the prompt, then the response. *)
Definition bubbles (d : ChatDoc) : list DisplayMessage :=
  [ mkMsg (userPrompt d) sender_user; mkMsg (aiResponse d) sender_ai ].

(** The flattening of a sequence of turns. *)
Definition flatten (turns : list ChatDoc) : list DisplayMessage :=
  flat_map bubbles turns.

(** [l] extended by appending. *)
Definition prefix_of {A} (l l' : list A) : Prop := exists tl, l' = l ++ tl.

Definition is_generation (t : Task) : bool :=
  match t with GenerateContentCall _ _ => true | _ => false end.

(** The number of generation calls not settled yet. *)
Definition outstanding (ts : list Task) : nat :=
  List.length (filter is_generation ts).

Definition is_query (e : Event) : bool :=
  match e with CallGetDocs _ => true | _ => false end.

Definition is_write (e : Event) : bool :=
  match e with CallAddDoc _ => true | _ => false end.

Definition is_invocation (e : Event) : bool :=
  match e with CallGenerateContent _ => true | _ => false end.

Definition count (p : Event -> bool) (tr : list Event) : nat :=
  List.length (filter p tr).

(** What the [.catch] handler of the write does. *)
Definition write_handler_spec (h : JsError -> Prog) : Prop :=
  forall e now c,
    run (h e) now c = (c, [LogError (lit "Error saving to Firestore:") e], []).

(** What the rest of handleSend does once the generation promise settles,
    for the owner [owner] and the prompt [msg] it was called with. *)
Definition send_continuation_spec (owner msg : jsstring)
    (k : Settled jsstring -> Prog) : Prop :=
  (forall text now c, exists h,
      run (k (Fulfilled text)) now c =
        (mkChat (messages c ++ [mkMsg text sender_ai]) (input c) false,
         [CallAddDoc (mkDoc owner msg text now)],
         [AddDocCall (mkDoc owner msg text now) h])
      /\ write_handler_spec h)
  /\
  (forall e now c,
      run (k (Rejected e)) now c =
        (mkChat (messages c ++
                   [mkMsg (message_or (Gemini.rethrown e) Chat.FALLBACK_MESSAGE)
                          sender_ai])
                (input c) false,
         [LogError (lit "Gemini API Error:") e;
          LogError (lit "Error generating response:") (Gemini.rethrown e)],
         [])).

(** What the rest of loadChatHistory does once the query settles. *)
Definition history_continuation_spec
    (k : Settled (list ChatDoc) -> Prog) : Prop :=
  (forall docs now c,
      run (k (Fulfilled docs)) now c =
        (mkChat (flatten docs) (input c) (loading c), [], []))
  /\
  (forall e now c,
      run (k (Rejected e)) now c =
        (c, [LogError (lit "Error loading chat history:") e], [])).

(** Every pending promise of a reachable world was created by the code
    above. *)
Definition task_ok (t : Task) : Prop :=
  match t with
  | GenerateContentCall msg k => exists owner, send_continuation_spec owner msg k
  | GetDocsCall _ k => history_continuation_spec k
  | AddDocCall _ h => write_handler_spec h
  end.

(** The in-flight flag counts the outstanding generation calls. *)
Definition invariant (w : World) : Prop :=
  Forall task_ok (pending w) /\
  outstanding (pending w) = (if loading (chat w) then 1 else 0) /\
  (loading (chat w) = true -> prop_user w <> None).

(** Steps in which every render passes the user object [u]. *)
Definition renders_only (u : User) (ls : list Label) : bool :=
  forallb (fun l => match l with Render u' => Object_is u u' | _ => true end) ls.

(** The settlement of a generation call. *)
Definition is_generation_reply (l : Label) : bool :=
  match l with Settle _ (GenerateContentReply _) => true | _ => false end.

(** The settlement of a history query that succeeded. *)
Definition is_history_loaded (l : Label) : bool :=
  match l with Settle _ (GetDocsReply None) => true | _ => false end.

Definition none_of (p : Label -> bool) (ls : list Label) : bool :=
  forallb (fun l => negb (p l)) ls.

(** The send of the prompt [msg] for [owner] has not settled yet. *)
Definition in_flight (owner msg : jsstring) (w : World) : Prop :=
  loading (chat w) = true /\
  exists k, In (GenerateContentCall msg k) (pending w) /\
            send_continuation_spec owner msg k.

(** The classes of generation failures, told apart by the description. *)
Inductive FailureClass := QuotaExhausted | RateLimited | OtherFailure.

Definition classify (e : JsError) : FailureClass :=
  match message e with
  | None => OtherFailure
  | Some description =>
      if includes description (lit "quota") then QuotaExhausted
      else if includes description (lit "429")
              || includes description (lit "Too Many Requests")
      then RateLimited
      else OtherFailure
  end.

(** Oldest first. *)
Definition ascending (turns : list ChatDoc) : Prop :=
  StronglySorted (fun a b => (timestamp a <= timestamp b)%Z) turns.

(** The steps of [step], one rule per path through the code, with the new
    world written out. *)
Inductive transition (w : World) : Label -> World -> Prop :=
| t_tick dt :
    transition w (Tick dt)
      (mkWorld (chat w) (prop_user w) (pending w) (chats w)
               (clock w + Z.of_N dt) (trace w))
| t_render_kept u :
    deps_changed (prop_user w) u = false ->
    transition w (Render u)
      (mkWorld (chat w) (Some u) (pending w) (chats w) (clock w) (trace w))
| t_render_load u k :
    deps_changed (prop_user w) u = true ->
    history_continuation_spec k ->
    transition w (Render u)
      (mkWorld (chat w) (Some u) (pending w ++ [GetDocsCall (uid u) k])
               (chats w) (clock w) (trace w ++ [CallGetDocs (uid u)]))
| t_change value :
    transition w (Change value)
      (mkWorld (set_input (chat w) value) (prop_user w) (pending w) (chats w)
               (clock w) (trace w))
| t_send_ignored u :
    prop_user w = Some u ->
    trim (input (chat w)) = [] \/ loading (chat w) = true ->
    transition w Send w
| t_send u k :
    prop_user w = Some u ->
    trim (input (chat w)) <> [] ->
    loading (chat w) = false ->
    send_continuation_spec (uid u) (trim (input (chat w))) k ->
    transition w Send
      (mkWorld (mkChat (messages (chat w) ++
                          [mkMsg (trim (input (chat w))) sender_user]) [] true)
               (prop_user w)
               (pending w ++ [GenerateContentCall (trim (input (chat w))) k])
               (chats w) (clock w)
               (trace w ++ [CallGenerateContent (trim (input (chat w)))]))
| t_generated i msg k owner text h :
    nth_error (pending w) i = Some (GenerateContentCall msg k) ->
    write_handler_spec h ->
    transition w (Settle i (GenerateContentReply (Fulfilled text)))
      (mkWorld (mkChat (messages (chat w) ++ [mkMsg text sender_ai])
                       (input (chat w)) false)
               (prop_user w)
               (remove_nth i (pending w) ++
                  [AddDocCall (mkDoc owner msg text (clock w)) h])
               (chats w) (clock w)
               (trace w ++ [CallAddDoc (mkDoc owner msg text (clock w))]))
| t_generation_failed i msg k e :
    nth_error (pending w) i = Some (GenerateContentCall msg k) ->
    transition w (Settle i (GenerateContentReply (Rejected e)))
      (mkWorld (mkChat (messages (chat w) ++
                          [mkMsg (message_or (Gemini.rethrown e)
                                             Chat.FALLBACK_MESSAGE) sender_ai])
                       (input (chat w)) false)
               (prop_user w) (remove_nth i (pending w)) (chats w) (clock w)
               (trace w ++
                  [LogError (lit "Gemini API Error:") e;
                   LogError (lit "Error generating response:")
                            (Gemini.rethrown e)]))
| t_history_loaded i owner k :
    nth_error (pending w) i = Some (GetDocsCall owner k) ->
    transition w (Settle i (GetDocsReply None))
      (mkWorld (mkChat (flatten (Firestore.query (chats w) owner))
                       (input (chat w)) (loading (chat w)))
               (prop_user w) (remove_nth i (pending w)) (chats w) (clock w)
               (trace w))
| t_history_failed i owner k e :
    nth_error (pending w) i = Some (GetDocsCall owner k) ->
    transition w (Settle i (GetDocsReply (Some e)))
      (mkWorld (chat w) (prop_user w) (remove_nth i (pending w)) (chats w)
               (clock w)
               (trace w ++ [LogError (lit "Error loading chat history:") e]))
| t_written i d h :
    nth_error (pending w) i = Some (AddDocCall d h) ->
    transition w (Settle i (AddDocReply None))
      (mkWorld (chat w) (prop_user w) (remove_nth i (pending w))
               (chats w ++ [d]) (clock w) (trace w))
| t_write_failed i d h e :
    nth_error (pending w) i = Some (AddDocCall d h) ->
    transition w (Settle i (AddDocReply (Some e)))
      (mkWorld (chat w) (prop_user w) (remove_nth i (pending w)) (chats w)
               (clock w)
               (trace w ++ [LogError (lit "Error saving to Firestore:") e])).

(* ------------------------------------------------------------------ *)
(** ** The rest of src/components/Chat.jsx: the key handler and the view *)

Module ChatView.

(** The fields of the keyboard event that handleKeyPress reads. *)
Record KeyboardEvent := mkKey { key : jsstring; shiftKey : bool }.

(** [handleKeyPress], lines 144-149, given the [handleSend] of the same
    render: whether [e.preventDefault()] was called, and what runs. *)
Definition handleKeyPress (handleSend : Prog) (e : KeyboardEvent) : bool * Prog :=
  if Js.eqb (key e) (lit "Enter") && negb (shiftKey e)
  then (true, handleSend)
  else (false, Done).

(** [disabled={loading}] on the textarea, line 192. *)
Definition textarea_disabled (c : ChatState) : bool := loading c.

(** [disabled={loading || !input.trim()}] on the button, line 197. *)
Definition button_disabled (c : ChatState) : bool :=
  loading c || negb (truthy (trim (input c))).

(** What the messages container holds, lines 158-181. *)
Inductive Bubble :=
| WelcomeMessage
| MessageBubble (index : nat) (msg : DisplayMessage)
| Thinking.

(** [messages.map((msg, index) => ...)] *)
Fixpoint message_bubbles (index : nat) (msgs : list DisplayMessage) : list Bubble :=
  match msgs with
  | [] => []
  | msg :: rest => MessageBubble index msg :: message_bubbles (S index) rest
  end.

Definition messages_container (c : ChatState) : list Bubble :=
  (if Nat.eqb (List.length (messages c)) 0
   then [WelcomeMessage]
   else message_bubbles 0 (messages c))
  ++ (if loading c then [Thinking] else []).

End ChatView.

(** What the user can do on the page.  A disabled control takes no event;
    the Enter key reaches handleKeyPress through the textarea. *)
Inductive Gesture :=
| TypeText (value : jsstring)
| ClickSend
| PressKey (e : ChatView.KeyboardEvent).

Definition gesture (w : World) (g : Gesture) : option World :=
  match g with
  | TypeText value =>
      if ChatView.textarea_disabled (chat w) then None
      else step w (Change value)
  | ClickSend =>
      if ChatView.button_disabled (chat w) then None else step w Send
  | PressKey e =>
      if ChatView.textarea_disabled (chat w) then None
      else
        match prop_user w with
        | Some u =>
            let handleSend :=
              Chat.handleSend u (input (chat w)) (loading (chat w)) in
            Some (perform (snd (ChatView.handleKeyPress handleSend e)) w)
        | None => None
        end
  end.

(** The steps that are not the user's: time, React, the services. *)
Definition is_environment (l : Label) : bool :=
  match l with
  | Tick _ | Render _ | Settle _ _ => true
  | Change _ | Send => false
  end.

(** The worlds a user of the page can bring about. *)
Inductive on_page : World -> Prop :=
| on_page_initial chats0 clock0 : on_page (initialWorld chats0 clock0)
| on_page_gesture w g w' : on_page w -> gesture w g = Some w' -> on_page w'
| on_page_environment w l w' :
    on_page w -> is_environment l = true -> step w l = Some w' -> on_page w'.

(** A session on the page, as a list of moves. *)
Inductive Move :=
| ByUser (g : Gesture)
| ByEnvironment (l : Label).

Definition move (w : World) (m : Move) : option World :=
  match m with
  | ByUser g => gesture w g
  | ByEnvironment l => if is_environment l then step w l else None
  end.

Fixpoint session (w : World) (ms : list Move) : option World :=
  match ms with
  | [] => Some w
  | m :: ms' =>
      match move w m with
      | Some w' => session w' ms'
      | None => None
      end
  end.

Definition is_generation_failure (e : Event) : bool :=
  match e with
  | LogError label _ => Js.eqb label (lit "Error generating response:")
  | _ => false
  end.

(** One exchange of a session: what the user typed before sending, how
    long the model took, and how the generation settled. *)
Record Exchange := mkExchange {
  typed : jsstring;
  waited : N;
  reply : Settled jsstring
}.

(** The steps of an exchange when [n] promises are pending before it. *)
Definition exchange_labels (n : nat) (x : Exchange) : list Label :=
  [ Change (typed x); Send; Tick (waited x);
    Settle n (GenerateContentReply (reply x)) ].

(** The writes an exchange leaves pending. *)
Definition leaves_write (x : Exchange) : nat :=
  match reply x with Fulfilled _ => 1 | Rejected _ => 0 end.

Fixpoint exchanges_labels (n : nat) (xs : list Exchange) : list Label :=
  match xs with
  | [] => []
  | x :: rest =>
      exchange_labels n x ++ exchanges_labels (n + leaves_write x) rest
  end.

(** The two bubbles of an exchange. *)
Definition exchange_messages (x : Exchange) : list DisplayMessage :=
  [ mkMsg (trim (typed x)) sender_user;
    mkMsg (match reply x with
           | Fulfilled aiText => aiText
           | Rejected e => message_or (Gemini.rethrown e) Chat.FALLBACK_MESSAGE
           end) sender_ai ].

(** The turns written by the exchanges that succeeded, from time [now]. *)
Fixpoint exchange_writes (owner : jsstring) (now : Z) (xs : list Exchange)
  : list ChatDoc :=
  match xs with
  | [] => []
  | x :: rest =>
      let settled := (now + Z.of_N (waited x))%Z in
      match reply x with
      | Fulfilled aiText => [mkDoc owner (trim (typed x)) aiText settled]
      | Rejected _ => []
      end ++ exchange_writes owner settled rest
  end.

(* ------------------------------------------------------------------ *)
(** ** The App component (unnamed/part_000): session state and routes *)

Module App.

(** A location, given by the route pattern it matches. *)
Inductive Route := LoginRoute | RegisterRoute | ChatRoute | IndexRoute | NoMatch.

(** The [element] of a route. *)
Inductive Element :=
| LoginPage
| RegisterPage
| ChatPage (user : User)
| Navigate (to : Route)
| NoElement.

Record AppState := mkApp { user : option User; loading : bool }.

(** [useState(null)], [useState(true)] *)
Definition initialApp : AppState := mkApp None true.

(** The callback given to [onAuthStateChanged], lines 37-40. *)
Definition onAuthStateChanged (currentUser : option User) (st : AppState)
  : AppState :=
  mkApp currentUser false.

(** The [<Routes>] table, lines 62-84. *)
Definition routes (user : option User) (location : Route) : Element :=
  match location with
  | LoginRoute =>
      match user with Some _ => Navigate ChatRoute | None => LoginPage end
  | RegisterRoute =>
      match user with Some _ => Navigate ChatRoute | None => RegisterPage end
  | ChatRoute =>
      match user with Some u => ChatPage u | None => Navigate LoginRoute end
  | IndexRoute =>
      Navigate (match user with Some _ => ChatRoute | None => LoginRoute end)
  | NoMatch => NoElement
  end.

Inductive Screen :=
| LoadingContainer
| AppScreen (navbar : option User) (page : Element).

(** What [App] returns, lines 47-87. *)
Definition render (st : AppState) (location : Route) : Screen :=
  if loading st then LoadingContainer
  else AppScreen (user st) (routes (user st) location).

(** The app with the location of the router. *)
Record AppWorld := mkAppWorld { app : AppState; location : Route }.

(** A rendered [<Navigate>] moves the location. *)
Definition redirect (w : AppWorld) : AppWorld :=
  match render (app w) (location w) with
  | AppScreen _ (Navigate to) => mkAppWorld (app w) to
  | _ => w
  end.

Fixpoint redirects (fuel : nat) (w : AppWorld) : AppWorld :=
  match fuel with
  | O => w
  | S fuel' => redirects fuel' (redirect w)
  end.

Inductive AppEvent :=
| AuthStateChanged (currentUser : option User)
| Navigated (to : Route).

(** An event, with one render (and its redirect) after it. *)
Definition app_step (w : AppWorld) (ev : AppEvent) : AppWorld :=
  redirect
    (match ev with
     | AuthStateChanged currentUser =>
         mkAppWorld (onAuthStateChanged currentUser (app w)) (location w)
     | Navigated to => mkAppWorld (app w) to
     end).

Fixpoint app_steps (w : AppWorld) (evs : list AppEvent) : AppWorld :=
  match evs with
  | [] => w
  | ev :: rest => app_steps (app_step w ev) rest
  end.

Definition screen (w : AppWorld) : Screen := render (app w) (location w).

End App.

(* ------------------------------------------------------------------ *)
(** ** Login (unnamed/part_003) and the logout of Navbar.jsx *)

Module Auth.

(** The state of the login form. *)
Record LoginState := mkLogin {
  email : jsstring;
  password : jsstring;
  error : jsstring;
  loading : bool
}.

(** The statements of handleLogin and handleLogout. *)
Inductive AuthProg : Type :=
| AuthDone
| PreventDefault (k : AuthProg)
| SetError (s : jsstring) (k : AuthProg)
| SetLoading (b : bool) (k : AuthProg)
| NavigateTo (to : App.Route) (k : AuthProg)
| LogoutError (label : jsstring) (e : JsError) (k : AuthProg)
| AwaitSignIn (email password : jsstring) (k : Settled unit -> AuthProg)
| AwaitSignOut (k : Settled unit -> AuthProg).

(** [handleLogin], part_003 lines 29-51, a closure over [email] and
    [password].  The [finally] block ends both the [try] and the [catch]. *)
Definition handleLogin (email password : jsstring) : AuthProg :=
  PreventDefault (
    if negb (truthy email) || negb (truthy password) then
      SetError (lit "Please fill in all fields") AuthDone
    else
      SetLoading true (
      SetError [] (
      AwaitSignIn email password (fun result =>
        let finally := SetLoading false AuthDone in
        match result with
        | Fulfilled _ => NavigateTo App.ChatRoute finally
        | Rejected err =>
            SetError (message_or err (lit "Failed to login")) finally
        end)))).

(** [handleLogout], Navbar.jsx lines 24-31. *)
Definition handleLogout : AuthProg :=
  AwaitSignOut (fun result =>
    match result with
    | Fulfilled _ => NavigateTo App.LoginRoute AuthDone
    | Rejected error => LogoutError (lit "Logout error:") error AuthDone
    end).

Inductive AuthEvent :=
| DefaultPrevented
| CallSignIn (email password : jsstring)
| CallSignOut
| CallNavigate (to : App.Route)
| LogAuthError (label : jsstring) (e : JsError).

(** Runs a handler up to its [await]: the new form state, what was called,
    and the continuation left pending. *)
Fixpoint run (p : AuthProg) (st : LoginState)
  : LoginState * list AuthEvent * option (Settled unit -> AuthProg) :=
  match p with
  | AuthDone => (st, [], None)
  | PreventDefault k =>
      let '(st', ev, pending) := run k st in (st', DefaultPrevented :: ev, pending)
  | SetError s k => run k (mkLogin (email st) (password st) s (loading st))
  | SetLoading b k => run k (mkLogin (email st) (password st) (error st) b)
  | NavigateTo to k =>
      let '(st', ev, pending) := run k st in (st', CallNavigate to :: ev, pending)
  | LogoutError label e k =>
      let '(st', ev, pending) := run k st in (st', LogAuthError label e :: ev, pending)
  | AwaitSignIn email password k => (st, [CallSignIn email password], Some k)
  | AwaitSignOut k => (st, [CallSignOut], Some k)
  end.

(** The [navigate] calls of a handler, as the events the app receives. *)
Definition navigations (evs : list AuthEvent) : list App.AppEvent :=
  flat_map (fun e => match e with
                     | CallNavigate to => [App.Navigated to]
                     | _ => []
                     end) evs.

(** What a run called. *)
Definition called (r : LoginState * list AuthEvent
                       * option (Settled unit -> AuthProg)) : list AuthEvent :=
  snd (fst r).

End Auth.

(* ------------------------------------------------------------------ *)
(** ** The theme provider (unnamed/part_004) *)

Module Theme.

(** What the provider touches in the browser: the item ['mavi-theme'] of
    localStorage and the [data-theme] attribute of the document element. *)
Record Browser := mkBrowser {
  localStorage : option jsstring;
  data_theme : option jsstring
}.

(** The initial state: [savedTheme || 'dark']. *)
Definition initialTheme (b : Browser) : jsstring :=
  match localStorage b with
  | Some savedTheme => if truthy savedTheme then savedTheme else lit "dark"
  | None => lit "dark"
  end.

(** The effect on [theme]. *)
Definition effect (theme : jsstring) (b : Browser) : Browser :=
  mkBrowser (Some theme) (Some theme).

(** The updater of toggleTheme. *)
Definition toggleTheme (prevTheme : jsstring) : jsstring :=
  if Js.eqb prevTheme (lit "dark") then lit "light" else lit "dark".

Record ThemeWorld := mkTheme { theme : jsstring; browser : Browser }.

(** The provider mounts: the state is initialised, then the effect runs. *)
Definition mount (b : Browser) : ThemeWorld :=
  let theme := initialTheme b in mkTheme theme (effect theme b).

(** A click on a toggle button: the state changes, the effect runs again
    when the theme is another string. *)
Definition toggle (w : ThemeWorld) : ThemeWorld :=
  let next := toggleTheme (theme w) in
  mkTheme next (if Js.eqb next (theme w) then browser w else effect next (browser w)).

Fixpoint toggles (n : nat) (w : ThemeWorld) : ThemeWorld :=
  match n with
  | O => w
  | S n' => toggles n' (toggle w)
  end.

End Theme.

(* ------------------------------------------------------------------ *)
(** ** Facts about [trim] *)

Section TrimFacts.

Example trim_spaces : trim (lit "  a b  ") = lit "a b".
Proof. reflexivity. Qed.

Example trim_line_ends :
  trim ([9; 10; 13; 160; 8232; 65279] ++ lit "x")%N = lit "x".
Proof. reflexivity. Qed.

Example trim_only_spaces : trim (lit "   ") = [].
Proof. reflexivity. Qed.

Example includes_inside : includes (lit "over quota today") (lit "quota") = true.
Proof. reflexivity. Qed.

Example includes_case : includes (lit "Quota") (lit "quota") = false.
Proof. reflexivity. Qed.

Lemma trimStart_head (s : jsstring) :
  trimStart s = [] \/
  exists c r, trimStart s = c :: r /\ is_white c = false.
Proof.
  induction s as [|c r IH]; simpl.
  - now left.
  - destruct (is_white c) eqn:W; [exact IH | right; eauto].
Qed.

Lemma trimEnd_keeps_head (c : N) (r : jsstring) :
  is_white c = false -> trimEnd (c :: r) = c :: trimEnd r.
Proof.
  intros W. simpl. destruct (trimEnd r); [now rewrite W | reflexivity].
Qed.

Lemma trimEnd_idempotent (s : jsstring) : trimEnd (trimEnd s) = trimEnd s.
Proof.
  induction s as [|c r IH]; [reflexivity|].
  simpl. destruct (trimEnd r) as [|x r'] eqn:E.
  - destruct (is_white c) eqn:W; simpl; [reflexivity | now rewrite W].
  - change (trimEnd (c :: x :: r')) with
      (match trimEnd (x :: r') with
       | [] => if is_white c then [] else [c]
       | y :: r'' => c :: y :: r''
       end).
    now rewrite IH.
Qed.

Lemma trim_idempotent (s : jsstring) : trim (trim s) = trim s.
Proof.
  unfold trim.
  destruct (trimStart_head s) as [E | (c & r & E & W)]; rewrite E.
  - reflexivity.
  - rewrite (trimEnd_keeps_head c r W). simpl. rewrite W.
    rewrite <- (trimEnd_keeps_head c r W). apply trimEnd_idempotent.
Qed.

Lemma trimStart_blank (s : jsstring) :
  trimStart s = [] <-> forallb is_white s = true.
Proof.
  induction s as [|c r IH]; simpl; [tauto|].
  destruct (is_white c); simpl; [exact IH | split; discriminate].
Qed.

(** The strings [trim] empties are the strings made of white space only. *)
Lemma trim_blank (s : jsstring) :
  trim s = [] <-> forallb is_white s = true.
Proof.
  rewrite <- trimStart_blank. unfold trim. split.
  - intros E. destruct (trimStart_head s) as [E' | (c & r & E' & W)]; [exact E'|].
    rewrite E', (trimEnd_keeps_head c r W) in E. discriminate.
  - intros E. now rewrite E.
Qed.

Lemma truthy_nonempty (s : jsstring) : truthy s = true <-> s <> [].
Proof. destruct s; simpl; split; congruence. Qed.

Lemma truthy_false (s : jsstring) : truthy s = false <-> s = [].
Proof. destruct s; simpl; split; congruence. Qed.

Lemma length_zero_truthy (s : jsstring) :
  (N.of_nat (List.length s) =? 0)%N = negb (truthy s).
Proof. destruct s; reflexivity. Qed.

(** The guard of generateResponse, [!prompt || prompt.trim().length === 0],
    is the test that the prompt trims to the empty string. *)
Lemma empty_prompt_guard (prompt : jsstring) :
  negb (truthy prompt) || (N.of_nat (List.length (trim prompt)) =? 0)%N
  = negb (truthy (trim prompt)).
Proof.
  rewrite length_zero_truthy. destruct prompt; reflexivity.
Qed.

End TrimFacts.

(* ------------------------------------------------------------------ *)
(** ** What the handlers do *)

Section Handlers.

Arguments lit : simpl never.

Lemma flatten_entries (docs : list ChatDoc) :
  flat_map (fun chat => [ mkMsg (h_userPrompt chat) sender_user;
                          mkMsg (h_aiResponse chat) sender_ai ])
           (map (fun data => mkEntry (userPrompt data) (aiResponse data)
                                     (timestamp data)) docs)
  = flatten docs.
Proof.
  induction docs as [|d r IH]; simpl; [reflexivity | now rewrite IH].
Qed.

Lemma flatten_length (docs : list ChatDoc) :
  List.length (flatten docs) = 2 * List.length docs.
Proof.
  induction docs as [|d r IH]; simpl; [reflexivity | rewrite IH; lia].
Qed.

(** The guard of line 96 stops the call. *)
Lemma handleSend_ignored (u : User) (inp : jsstring) (ld : bool) :
  trim inp = [] \/ ld = true -> Chat.handleSend u inp ld = Done.
Proof.
  intros [E | E]; unfold Chat.handleSend; rewrite E; simpl;
    [reflexivity | now rewrite orb_true_r].
Qed.

(** Past the guard: the optimistic message, the flag, one generation call. *)
Lemma run_handleSend (u : User) (inp : jsstring) (now : Z) (c : ChatState) :
  trim inp <> [] ->
  exists k,
    run (Chat.handleSend u inp false) now c =
      (mkChat (messages c ++ [mkMsg (trim inp) sender_user]) [] true,
       [CallGenerateContent (trim inp)],
       [GenerateContentCall (trim inp) k])
    /\ send_continuation_spec (uid u) (trim inp) k.
Proof.
  intros NE. apply truthy_nonempty in NE.
  unfold Chat.handleSend, Gemini.generateResponse.
  rewrite empty_prompt_guard, trim_idempotent, NE. simpl.
  eexists. split; [reflexivity|].
  split.
  - intros txt now' c'. eexists. split; [reflexivity|].
    intros e now'' c''. reflexivity.
  - intros e now' c'. reflexivity.
Qed.

Lemma run_loadChatHistory (u : User) (now : Z) (c : ChatState) :
  exists k,
    run (Chat.loadChatHistory (Some u)) now c =
      (c, [CallGetDocs (uid u)], [GetDocsCall (uid u) k])
    /\ history_continuation_spec k.
Proof.
  simpl. eexists. split; [reflexivity|].
  split.
  - intros docs now' c'. simpl. now rewrite flatten_entries.
  - intros e now' c'. reflexivity.
Qed.

End Handlers.

(* ------------------------------------------------------------------ *)
(** ** The steps of the world *)

Section Steps.

Lemma perform_run (p : Prog) (w : World) c ev ts :
  run p (clock w) (chat w) = (c, ev, ts) ->
  perform p w =
    mkWorld c (prop_user w) (pending w ++ ts) (chats w) (clock w) (trace w ++ ev).
Proof. intros E. unfold perform. now rewrite E. Qed.

Lemma perform_Done (w : World) : perform Done w = w.
Proof.
  unfold perform. simpl. rewrite !app_nil_r. now destruct w.
Qed.

Lemma remove_nth_last {A} (l : list A) (a : A) :
  nth_error (l ++ [a]) (List.length l) = Some a /\
  remove_nth (List.length l) (l ++ [a]) = l.
Proof.
  unfold remove_nth. induction l as [|x l [IH1 IH2]]; simpl.
  - now split.
  - split; [exact IH1 | f_equal; exact IH2].
Qed.

Lemma nth_error_split_remove {A} (l : list A) (i : nat) (a : A) :
  nth_error l i = Some a ->
  exists l1 l2, l = l1 ++ a :: l2 /\ remove_nth i l = l1 ++ l2.
Proof.
  revert i. induction l as [|x l IH]; intros [|i] E; simpl in E; try discriminate.
  - injection E as ->. exists [], l. now split.
  - destruct (IH i E) as (l1 & l2 & -> & R).
    exists (x :: l1), l2. split; [reflexivity|].
    change (remove_nth (S i) (x :: l1 ++ a :: l2))
      with (x :: remove_nth i (l1 ++ a :: l2)).
    now rewrite R.
Qed.

Lemma outstanding_app (l l' : list Task) :
  outstanding (l ++ l') = outstanding l + outstanding l'.
Proof. unfold outstanding. now rewrite filter_app, length_app. Qed.

Lemma outstanding_remove (l : list Task) (i : nat) (t : Task) :
  nth_error l i = Some t ->
  outstanding l =
    outstanding (remove_nth i l) + (if is_generation t then 1 else 0).
Proof.
  intros E. destruct (nth_error_split_remove l i t E) as (l1 & l2 & -> & ->).
  rewrite !outstanding_app. change (t :: l2) with ([t] ++ l2).
  rewrite outstanding_app. unfold outstanding at 2. simpl.
  destruct (is_generation t); simpl; lia.
Qed.

Lemma outstanding_found (ts : list Task) :
  1 <= outstanding ts ->
  exists i msg k, nth_error ts i = Some (GenerateContentCall msg k).
Proof.
  induction ts as [|t ts IH]; unfold outstanding; simpl; [lia|].
  destruct t as [msg k | owner k | d h]; simpl; intros H.
  - now exists 0, msg, k.
  - destruct (IH H) as (i & msg & k' & E). now exists (S i), msg, k'.
  - destruct (IH H) as (i & msg & k' & E). now exists (S i), msg, k'.
Qed.

Lemma remove_nth_In {A} (i : nat) (l : list A) (x : A) :
  In x (remove_nth i l) -> In x l.
Proof.
  revert i. induction l as [|y l IH]; intros [|i] H.
  - exact H.
  - exact H.
  - right. exact H.
  - change (In x (y :: remove_nth i l)) in H.
    destruct H as [H | H]; [now left | right; eauto].
Qed.

Lemma task_ok_remove (l : list Task) (i : nat) :
  Forall task_ok l -> Forall task_ok (remove_nth i l).
Proof.
  rewrite !Forall_forall. intros F t I. eauto using remove_nth_In.
Qed.

Lemma task_ok_nth (l : list Task) (i : nat) (t : Task) :
  Forall task_ok l -> nth_error l i = Some t -> task_ok t.
Proof.
  intros F E. rewrite Forall_forall in F. apply F. eapply nth_error_In; eauto.
Qed.

(** [step] takes the rules of [transition], as long as the pending promises
    are those of the code. *)
Lemma step_transition (w : World) (l : Label) (w' : World) :
  Forall task_ok (pending w) -> step w l = Some w' -> transition w l w'.
Proof.
  intros F S. destruct l as [dt | u | value | | i r]; simpl in S.
  - injection S as <-. constructor.
  - injection S as <-. unfold render.
    destruct (deps_changed (prop_user w) u) eqn:D.
    + destruct (run_loadChatHistory u (clock w) (chat w)) as (k & R & K).
      erewrite perform_run by (simpl; exact R). simpl.
      now apply t_render_load.
    + now apply t_render_kept.
  - injection S as <-. constructor.
  - destruct (prop_user w) as [u|] eqn:U; [|discriminate].
    injection S as <-.
    destruct (loading (chat w)) eqn:L.
    + rewrite handleSend_ignored by now right. rewrite perform_Done.
      apply t_send_ignored with u; auto.
    + destruct (trim (input (chat w))) as [|x r] eqn:T.
      * rewrite handleSend_ignored by now left. rewrite perform_Done.
        apply t_send_ignored with u; auto.
      * destruct (run_handleSend u (input (chat w)) (clock w) (chat w))
          as (k & R & K); [congruence|].
        erewrite perform_run by exact R.
        apply t_send with u; auto. congruence.
  - destruct (nth_error (pending w) i) as [t|] eqn:E; [|discriminate].
    pose proof (task_ok_nth _ _ _ F E) as OK.
    destruct t as [msg k | owner k | d h]; destruct r as [r | f | f];
      simpl in S; try discriminate.
    + destruct OK as (owner & Kok & Kerr). injection S as <-.
      destruct r as [txt | e].
      * destruct (Kok txt (clock w) (chat w)) as (h & R & H).
        erewrite perform_run by (simpl; exact R). simpl.
        now apply t_generated with k.
      * erewrite perform_run by (simpl; apply Kerr). simpl.
        rewrite app_nil_r. now apply t_generation_failed with msg k.
    + destruct OK as (Kok & Kerr). destruct f as [e|]; injection S as <-.
      * erewrite perform_run by (simpl; apply Kerr). simpl.
        rewrite app_nil_r. now apply t_history_failed with owner k.
      * erewrite perform_run by (simpl; apply Kok). simpl.
        rewrite !app_nil_r. now apply t_history_loaded with k.
    + destruct f as [e|]; injection S as <-.
      * erewrite perform_run by (simpl; apply OK). simpl.
        rewrite app_nil_r. now apply t_write_failed with d h.
      * now apply t_written with h.
Qed.

End Steps.

(* ------------------------------------------------------------------ *)
(** ** The invariant of the reachable worlds *)

Section Invariant.

Lemma invariant_initial chats0 clock0 : invariant (initialWorld chats0 clock0).
Proof. repeat split; [constructor | discriminate]. Qed.

Lemma task_ok_added (l : list Task) (t : Task) :
  Forall task_ok l -> task_ok t -> Forall task_ok (l ++ [t]).
Proof. intros F T. apply Forall_app. split; [exact F | now constructor]. Qed.

Lemma outstanding_bound (w : World) :
  outstanding (pending w) = (if loading (chat w) then 1 else 0) ->
  outstanding (pending w) <= 1.
Proof. intros ->. destruct (loading (chat w)); lia. Qed.

Lemma outstanding_added (l : list Task) (t : Task) :
  outstanding (l ++ [t]) = outstanding l + (if is_generation t then 1 else 0).
Proof.
  rewrite outstanding_app. unfold outstanding at 2. simpl.
  now destruct (is_generation t).
Qed.

Ltac removed_task :=
  match goal with
  | H : nth_error (pending _) _ = Some _ |- _ =>
      let R := fresh "R" in
      pose proof (outstanding_remove _ _ _ H) as R; simpl in R
  end.

Lemma invariant_transition (w : World) (l : Label) (w' : World) :
  invariant w -> transition w l w' -> invariant w'.
Proof.
  intros (F & O & P) T. pose proof (outstanding_bound w O) as B.
  inversion T; subst; unfold invariant; simpl;
    try removed_task; rewrite ?outstanding_added; simpl.
  - (* the clock *) auto.
  - (* a render that keeps the effect *) repeat split; auto; discriminate.
  - (* a render that loads the history *)
    repeat split; [now apply task_ok_added | lia | discriminate].
  - (* the textarea *) auto.
  - (* a send stopped by the guard *) auto.
  - (* a send past the guard *)
    repeat split; [apply task_ok_added; simpl; eauto | | congruence].
    rewrite O. match goal with H : loading _ = false |- _ => now rewrite H end.
  - (* the generation succeeded *)
    repeat split; [apply task_ok_added; auto using task_ok_remove | lia | discriminate].
  - (* the generation failed *)
    repeat split; [now apply task_ok_remove | lia | discriminate].
  - (* the history arrived *)
    repeat split; [now apply task_ok_remove | lia | exact P].
  - (* the history query failed *)
    repeat split; [now apply task_ok_remove | lia | exact P].
  - (* the write succeeded *)
    repeat split; [now apply task_ok_remove | lia | exact P].
  - (* the write failed *)
    repeat split; [now apply task_ok_remove | lia | exact P].
Qed.

Lemma reachable_invariant (w : World) : reachable w -> invariant w.
Proof.
  induction 1 as [chats0 clock0 | w l w' _ IH S].
  - apply invariant_initial.
  - eapply invariant_transition; [exact IH|].
    apply step_transition; [apply IH | exact S].
Qed.

(** Every step of a reachable world is one of the rules. *)
Lemma reachable_steps (w : World) (ls : list Label) (w' : World) :
  reachable w -> steps w ls = Some w' -> reachable w'.
Proof.
  revert w. induction ls as [|l ls IH]; intros w R S; simpl in S.
  - now injection S as <-.
  - destruct (step w l) as [w1|] eqn:E; [|discriminate].
    apply (IH w1); [now apply reachable_step with w l | exact S].
Qed.

Lemma reachable_transition (w : World) (l : Label) (w' : World) :
  reachable w -> step w l = Some w' -> transition w l w'.
Proof.
  intros R S. apply step_transition; [apply (reachable_invariant w R) | exact S].
Qed.

End Invariant.

(* ------------------------------------------------------------------ *)
(** ** The history query *)

Section FirestoreFacts.

Import Firestore.

Lemma insert_perm (d : ChatDoc) (l : list ChatDoc) :
  Permutation (insert d l) (d :: l).
Proof.
  induction l as [|x r IH]; simpl; [reflexivity|].
  destruct (timestamp d <=? timestamp x)%Z; [reflexivity|].
  rewrite IH. apply perm_swap.
Qed.

Lemma orderBy_perm (l : list ChatDoc) : Permutation (orderBy_timestamp_asc l) l.
Proof.
  induction l as [|d r IH]; simpl; [reflexivity|].
  rewrite insert_perm. now constructor.
Qed.

Lemma insert_ascending (d : ChatDoc) (l : list ChatDoc) :
  ascending l -> ascending (insert d l).
Proof.
  unfold ascending.
  induction 1 as [|x r S IH F]; simpl.
  - repeat constructor.
  - destruct (timestamp d <=? timestamp x)%Z eqn:C.
    + apply Z.leb_le in C. constructor; [now constructor|].
      constructor; [exact C|].
      eapply Forall_impl; [|exact F]. simpl. intros; lia.
    + apply Z.leb_gt in C. constructor; [exact IH|].
      rewrite Forall_forall in *. intros y I.
      apply (Permutation_in _ (insert_perm d r)) in I.
      destruct I as [<- | I]; [lia | now apply F].
Qed.

Lemma orderBy_ascending (l : list ChatDoc) : ascending (orderBy_timestamp_asc l).
Proof.
  induction l as [|d r IH]; simpl; [constructor | now apply insert_ascending].
Qed.

Lemma query_length (chats0 : list ChatDoc) (owner : jsstring) :
  List.length (query chats0 owner) = List.length (where_userId owner chats0).
Proof. apply Permutation_length, orderBy_perm. Qed.

End FirestoreFacts.

(* ------------------------------------------------------------------ *)
(** ** Steps written out *)

Section StepFacts.

Lemma step_Send_ignored (w : World) (u : User) :
  prop_user w = Some u ->
  trim (input (chat w)) = [] \/ loading (chat w) = true ->
  step w Send = Some w.
Proof.
  intros U G. simpl. rewrite U, handleSend_ignored by exact G.
  now rewrite perform_Done.
Qed.

Lemma step_Send_accepted (w : World) (u : User) :
  prop_user w = Some u ->
  trim (input (chat w)) <> [] ->
  loading (chat w) = false ->
  exists k,
    step w Send =
      Some (mkWorld (mkChat (messages (chat w) ++
                               [mkMsg (trim (input (chat w))) sender_user])
                            [] true)
                    (Some u)
                    (pending w ++ [GenerateContentCall (trim (input (chat w))) k])
                    (chats w) (clock w)
                    (trace w ++ [CallGenerateContent (trim (input (chat w)))]))
    /\ send_continuation_spec (uid u) (trim (input (chat w))) k.
Proof.
  intros U NE L.
  destruct (run_handleSend u (input (chat w)) (clock w) (chat w) NE)
    as (k & R & K).
  exists k. split; [|exact K].
  simpl. rewrite U, L. erewrite perform_run by exact R. now rewrite U.
Qed.

Lemma step_Render_load (w : World) (u : User) :
  deps_changed (prop_user w) u = true ->
  exists k,
    step w (Render u) =
      Some (mkWorld (chat w) (Some u) (pending w ++ [GetDocsCall (uid u) k])
                    (chats w) (clock w) (trace w ++ [CallGetDocs (uid u)]))
    /\ history_continuation_spec k.
Proof.
  intros D.
  destruct (run_loadChatHistory u (clock w) (chat w)) as (k & R & K).
  exists k. split; [|exact K].
  simpl. unfold render. rewrite D.
  erewrite perform_run by (simpl; exact R). reflexivity.
Qed.

Lemma step_Render_kept (w : World) (u : User) :
  deps_changed (prop_user w) u = false ->
  step w (Render u) =
    Some (mkWorld (chat w) (Some u) (pending w) (chats w) (clock w) (trace w)).
Proof. intros D. simpl. unfold render. now rewrite D. Qed.

(** Settling the promise created last. *)
Lemma step_Settle_last c pu ts t chats0 clock0 tr (r : Reply) :
  step (mkWorld c pu (ts ++ [t]) chats0 clock0 tr) (Settle (List.length ts) r)
  = settle t r (mkWorld c pu ts chats0 clock0 tr).
Proof.
  simpl. destruct (remove_nth_last ts t) as [-> R].
  unfold take_task. simpl. now rewrite R.
Qed.

Lemma steps_cons (w : World) (l : Label) (ls : list Label) (w1 : World) :
  step w l = Some w1 -> steps w (l :: ls) = steps w1 ls.
Proof. intros S. simpl. now rewrite S. Qed.

End StepFacts.

(* ------------------------------------------------------------------ *)
(** ** The send operation *)

Section Send.

(** C3.  A call of handleSend whose trimmed input is empty, or made while a
    send is in flight, changes nothing: the world after the call is the
    world before it, so the message sequence is the same, no generation call
    is made and nothing is written. *)
Theorem C3_send_guard_noop (w : World) (u : User) :
  prop_user w = Some u ->
  trim (input (chat w)) = [] \/ loading (chat w) = true ->
  exists w',
    step w Send = Some w' /\
    w' = w /\
    List.length (messages (chat w')) = List.length (messages (chat w)) /\
    count is_invocation (trace w') = count is_invocation (trace w) /\
    count is_write (trace w') = count is_write (trace w) /\
    pending w' = pending w.
Proof.
  intros U G. exists w. rewrite (step_Send_ignored w u U G). tauto.
Qed.

Lemma C3_send_guard_noop_witness :
  let w := mkWorld (mkChat [mkMsg (lit "hello") sender_user] (lit "   ") false)
                   (Some (mkUser 1 (lit "alice"))) [] [] 0 [] in
  exists w',
    step w Send = Some w' /\
    w' = w /\
    List.length (messages (chat w')) = List.length (messages (chat w)) /\
    count is_invocation (trace w') = count is_invocation (trace w) /\
    count is_write (trace w') = count is_write (trace w) /\
    pending w' = pending w.
Proof.
  intros w. apply (C3_send_guard_noop w (mkUser 1 (lit "alice"))).
  - reflexivity.
  - left. reflexivity.
Defined.

Lemma In_remove_other {A} (l : list A) (i : nat) (t t' : A) :
  nth_error l i = Some t' -> In t l -> t <> t' -> In t (remove_nth i l).
Proof.
  intros E I D.
  destruct (nth_error_split_remove l i t' E) as (l1 & l2 & -> & ->).
  apply in_app_or in I as [I | [I | I]]; apply in_or_app; auto.
  now elim D.
Qed.

Lemma filter_added (p : Event -> bool) (tr ev : list Event) :
  filter p ev = [] -> filter p (tr ++ ev) = filter p tr.
Proof. intros E. now rewrite filter_app, E, app_nil_r. Qed.

(** While a send is in flight, a step other than the settlement of its
    generation keeps it in flight, makes no call to the model, attempts no
    write, and keeps the messages unless it is a history load. *)
Lemma in_flight_step (owner msg : jsstring) (w : World) (l : Label) (w' : World) :
  reachable w ->
  in_flight owner msg w ->
  is_generation_reply l = false ->
  step w l = Some w' ->
  in_flight owner msg w' /\
  filter is_write (trace w') = filter is_write (trace w) /\
  filter is_invocation (trace w') = filter is_invocation (trace w) /\
  (is_history_loaded l = false -> messages (chat w') = messages (chat w)).
Proof.
  intros R (L & k & I & K) NG S.
  pose proof (reachable_transition w l w' R S) as T.
  assert (Kept : forall i t,
            nth_error (pending w) i = Some t -> is_generation t = false ->
            In (GenerateContentCall msg k) (remove_nth i (pending w))).
  { intros i t E G. eapply In_remove_other; eauto.
    intros <-. discriminate G. }
  inversion T; subst; simpl in NG; try discriminate NG; try congruence;
    unfold in_flight; cbn [chat pending trace loading messages set_input];
    rewrite ?filter_added by reflexivity;
    (split; [split; [exact L|]; exists k; split; [|exact K] |
             split; [reflexivity|]; split; [reflexivity|];
             try (intros _; reflexivity)]);
    try exact I; try (eapply Kept; eauto; reflexivity).
  - apply in_or_app; left; exact I.
  - intros Hl; discriminate Hl.
Qed.

Lemma in_flight_steps (owner msg : jsstring) (ls : list Label) (w w' : World) :
  reachable w ->
  in_flight owner msg w ->
  none_of is_generation_reply ls = true ->
  steps w ls = Some w' ->
  in_flight owner msg w' /\
  filter is_write (trace w') = filter is_write (trace w) /\
  filter is_invocation (trace w') = filter is_invocation (trace w) /\
  (none_of is_history_loaded ls = true ->
   messages (chat w') = messages (chat w)).
Proof.
  revert w. induction ls as [|l ls IH]; intros w R F NG S; simpl in S.
  - injection S as <-. split; [exact F|]. repeat split.
  - apply andb_true_iff in NG as [NGl NG]. apply negb_true_iff in NGl.
    destruct (step w l) as [w1|] eqn:E; [|discriminate].
    destruct (in_flight_step owner msg w l w1 R F NGl E) as (F1 & W1 & I1 & M1).
    destruct (IH w1 (reachable_step w l w1 R E) F1 NG S) as (F' & W' & I' & M').
    split; [exact F'|]. split; [congruence|]. split; [congruence|].
    intros NH. apply andb_true_iff in NH as [NHl NH].
    apply negb_true_iff in NHl. rewrite M' by exact NH. now apply M1.
Qed.

Lemma outstanding_none (ts : list Task) (t : Task) :
  outstanding ts = 0 -> In t ts -> is_generation t = false.
Proof.
  unfold outstanding. induction ts as [|x ts IH]; simpl; [intros _ []|].
  destruct (is_generation x) eqn:G; simpl; [discriminate|].
  intros O [<- | I]; auto.
Qed.

(** The generation call that settles while a send is in flight is the call
    of that send. *)
Lemma in_flight_settles (owner msg : jsstring) (w : World) (j : nat)
    (m : jsstring) (k : Settled jsstring -> Prog) :
  reachable w ->
  in_flight owner msg w ->
  nth_error (pending w) j = Some (GenerateContentCall m k) ->
  m = msg /\ send_continuation_spec owner msg k.
Proof.
  intros R (L & k0 & I & K) E.
  destruct (reachable_invariant w R) as (_ & O & _). rewrite L in O.
  destruct (nth_error_split_remove _ _ _ E) as (l1 & l2 & P & _).
  rewrite P in O, I. rewrite outstanding_app in O.
  change (GenerateContentCall m k :: l2)
    with ([GenerateContentCall m k] ++ l2) in O.
  rewrite outstanding_app in O. unfold outstanding at 2 in O. simpl in O.
  apply in_app_or in I as [I | [I | I]].
  - apply (outstanding_none l1) in I; [discriminate I | lia].
  - injection I as -> ->. now split.
  - apply (outstanding_none l2) in I; [discriminate I | lia].
Qed.

Lemma in_flight_found (owner msg : jsstring) (w : World) :
  in_flight owner msg w ->
  exists j k, nth_error (pending w) j = Some (GenerateContentCall msg k).
Proof.
  intros (_ & k & I & _). apply In_nth_error in I as (j & E). eauto.
Qed.

(** C1, as the code has it.  A send whose trimmed input is not empty, made
    while no send is in flight, appends the trimmed input at once as a user
    message and calls the model once.  Whatever happens before the
    generation settles, its success appends the returned text as an ai
    message and attempts one write, of the owner's id, the trimmed input,
    the returned text and the time of the settlement; nothing else is
    written and the model is not called again.  So the sequence gains the
    two messages, in order, unless a history load succeeded in between. *)
Theorem C1_send_success_trimmed
    (w : World) (u : User) (aiText : jsstring) (ls : list Label) (w2 : World) :
  reachable w ->
  prop_user w = Some u ->
  trim (input (chat w)) <> [] ->
  loading (chat w) = false ->
  none_of is_generation_reply ls = true ->
  steps w (Send :: ls) = Some w2 ->
  let userMessage := trim (input (chat w)) in
  let turn := mkDoc (uid u) userMessage aiText (clock w2) in
  (exists w1,
     step w Send = Some w1 /\
     messages (chat w1) =
       messages (chat w) ++ [mkMsg userMessage sender_user] /\
     trace w1 = trace w ++ [CallGenerateContent userMessage]) /\
  (exists j w3,
     step w2 (Settle j (GenerateContentReply (Fulfilled aiText))) = Some w3) /\
  (forall j w3,
     step w2 (Settle j (GenerateContentReply (Fulfilled aiText))) = Some w3 ->
     messages (chat w3) = messages (chat w2) ++ [mkMsg aiText sender_ai] /\
     trace w3 = trace w2 ++ [CallAddDoc turn] /\
     filter is_write (trace w3) =
       filter is_write (trace w) ++ [CallAddDoc turn] /\
     filter is_invocation (trace w3) =
       filter is_invocation (trace w) ++ [CallGenerateContent userMessage] /\
     loading (chat w3) = false /\
     (none_of is_history_loaded ls = true ->
      messages (chat w3) =
        messages (chat w) ++
          [ mkMsg userMessage sender_user; mkMsg aiText sender_ai ])).
Proof.
  intros R U NE L NG S userMessage turn.
  destruct (step_Send_accepted w u U NE L) as (k & S1 & K).
  rewrite (steps_cons _ _ _ _ S1) in S.
  match type of S1 with _ = Some ?W => set (w1 := W) in * end.
  assert (R1 : reachable w1) by (eapply reachable_step; eauto).
  assert (F1 : in_flight (uid u) userMessage w1).
  { split; [reflexivity|]. exists k. split; [|exact K].
    apply in_or_app. right. now left. }
  destruct (in_flight_steps (uid u) userMessage ls w1 w2 R1 F1 NG S)
    as (F2 & Wr & Inv & M).
  assert (R2 : reachable w2) by (eapply reachable_steps; eauto).
  split; [exists w1; repeat split; exact S1|].
  assert (Settles : forall j w3,
    step w2 (Settle j (GenerateContentReply (Fulfilled aiText))) = Some w3 ->
    exists h,
      w3 = mkWorld (mkChat (messages (chat w2) ++ [mkMsg aiText sender_ai])
                           (input (chat w2)) false)
                   (prop_user w2)
                   (remove_nth j (pending w2) ++ [AddDocCall turn h])
                   (chats w2) (clock w2) (trace w2 ++ [CallAddDoc turn])).
  { intros j w3 S3. simpl in S3.
    destruct (nth_error (pending w2) j) as [t|] eqn:E; [|discriminate].
    destruct t as [m k' | |]; simpl in S3; try discriminate.
    destruct (in_flight_settles _ _ _ _ _ _ R2 F2 E) as (-> & Kok & _).
    destruct (Kok aiText (clock w2) (chat w2)) as (h & Run & _).
    exists h. injection S3 as <-.
    now erewrite perform_run by (simpl; exact Run). }
  split.
  { destruct (in_flight_found _ _ _ F2) as (j & k' & E).
    exists j. simpl. rewrite E. simpl. eauto. }
  intros j w3 S3. destruct (Settles j w3 S3) as (h & ->).
  cbn [chat messages trace loading].
  split; [reflexivity|]. split; [reflexivity|].
  rewrite !filter_app, Wr, Inv. cbn [w1 trace].
  rewrite !filter_app. cbn [filter is_write is_invocation].
  rewrite !app_nil_r.
  repeat split.
  intros NH. rewrite (M NH). cbn [w1 chat messages].
  now rewrite <- app_assoc.
Qed.

Lemma C1_send_success_trimmed_witness :
  let alice := mkUser 1 (lit "alice") in
  exists w w2 w3,
    steps (initialWorld [] 1000) [ Render alice; Change (lit " hi ") ] = Some w /\
    steps w [ Send; Tick 5 ] = Some w2 /\
    step w2 (Settle 1 (GenerateContentReply (Fulfilled (lit "hello"))))
      = Some w3 /\
    messages (chat w3) =
      [ mkMsg (lit "hi") sender_user; mkMsg (lit "hello") sender_ai ] /\
    filter is_write (trace w3) =
      [ CallAddDoc (mkDoc (lit "alice") (lit "hi") (lit "hello") 1005) ].
Proof.
  intros alice. do 3 eexists.
  match goal with |- ?A /\ ?B /\ ?C /\ _ =>
    assert (HA : A) by reflexivity;
    assert (HB : B) by reflexivity;
    assert (HC : C) by reflexivity
  end.
  repeat (split; [assumption|]).
  match type of HA with steps _ _ = Some ?w =>
    match type of HB with steps _ _ = Some ?w2 =>
      destruct (C1_send_success_trimmed w alice (lit "hello") [Tick 5] w2)
        as (_ & _ & Settled)
    end
  end.
  - apply reachable_steps with
      (initialWorld [] 1000) [ Render alice; Change (lit " hi ") ];
      [apply reachable_initial | reflexivity].
  - reflexivity.
  - discriminate.
  - reflexivity.
  - reflexivity.
  - reflexivity.
  - destruct (Settled _ _ HC) as (_ & _ & Wr & _ & _ & M).
    split; [apply M; reflexivity | exact Wr].
Defined.

(** C1 as stated fails on an input with white space around it: for the raw
    text [" hi"] the user message and the prompt written are ["hi"], not the
    raw text. *)
Lemma C1_raw_text_counterexample :
  let u := mkUser 1 (lit "alice") in
  let rawText := lit " hi" in
  let w := mkWorld (mkChat [] rawText false) (Some u) [] [] 1000 [] in
  exists w',
    steps w [ Send; Settle 0 (GenerateContentReply (Fulfilled (lit "ok"))) ]
      = Some w' /\
    messages (chat w') =
      [ mkMsg (lit "hi") sender_user; mkMsg (lit "ok") sender_ai ] /\
    messages (chat w') <>
      [ mkMsg rawText sender_user; mkMsg (lit "ok") sender_ai ] /\
    trace w' =
      [ CallGenerateContent (lit "hi");
        CallAddDoc (mkDoc (lit "alice") (lit "hi") (lit "ok") 1000) ] /\
    ~ In (CallAddDoc (mkDoc (lit "alice") rawText (lit "ok") 1000)) (trace w').
Proof.
  intros u rawText w. eexists. split; [reflexivity|].
  split; [reflexivity|]. split; [discriminate|]. split; [reflexivity|].
  simpl. intros [H | [H | []]]; discriminate.
Qed.

(** C4.  A send past the guard whose generation call fails appends, after
    the user message, one ai message whose text is the description of the
    failure handleSend catches, or the fallback text when that failure has
    no description; the in-flight flag is cleared and nothing is written. *)
Theorem C4_send_failure (w : World) (u : User) (e : JsError) (dt : N) :
  prop_user w = Some u ->
  trim (input (chat w)) <> [] ->
  loading (chat w) = false ->
  let userMessage := trim (input (chat w)) in
  let caught := Gemini.rethrown e in
  let errorMessage :=
    match message caught with
    | Some (c :: description) => c :: description
    | _ => Chat.FALLBACK_MESSAGE
    end in
  exists w',
    steps w [ Send; Tick dt;
              Settle (List.length (pending w))
                     (GenerateContentReply (Rejected e)) ] = Some w' /\
    messages (chat w') =
      messages (chat w) ++
        [ mkMsg userMessage sender_user; mkMsg errorMessage sender_ai ] /\
    loading (chat w') = false /\
    count is_write (trace w') = count is_write (trace w) /\
    pending w' = pending w /\
    chats w' = chats w.
Proof.
  intros U NE L userMessage caught errorMessage.
  destruct (step_Send_accepted w u U NE L) as (k & S & _ & Kerr).
  rewrite (steps_cons _ _ _ _ S).
  erewrite steps_cons
    by (cbn [step chat prop_user pending chats clock trace]; reflexivity).
  erewrite steps_cons
    by (rewrite step_Settle_last; cbn [settle];
        erewrite perform_run by apply Kerr; reflexivity).
  eexists. split; [reflexivity|].
  cbn [chat messages trace loading pending chats].
  rewrite <- !app_assoc, app_nil_r. repeat split.
  - unfold errorMessage, caught, message_or.
    destruct (message (Gemini.rethrown e)) as [[|c d]|]; reflexivity.
  - unfold count. rewrite !filter_app, !length_app. simpl. lia.
Qed.

Lemma C4_send_failure_witness :
  let u := mkUser 1 (lit "alice") in
  let w := mkWorld (mkChat [] (lit "hi") false) (Some u) [] [] 1000 [] in
  exists w',
    steps w [ Send; Tick 0;
              Settle 0 (GenerateContentReply (Rejected (mkError None))) ]
      = Some w' /\
    messages (chat w') =
      [ mkMsg (lit "hi") sender_user;
        mkMsg Chat.FALLBACK_MESSAGE sender_ai ] /\
    loading (chat w') = false /\
    count is_write (trace w') = 0.
Proof.
  intros u w.
  destruct (C4_send_failure w u (mkError None) 0) as (w' & S & M & L & C & _).
  - reflexivity.
  - discriminate.
  - reflexivity.
  - exists w'. repeat split; assumption.
Defined.

End Send.

(* ------------------------------------------------------------------ *)
(** ** The Gemini wrapper *)

Section GeminiFacts.

Import Gemini.

Lemma rethrown_empty_prompt : rethrown (Error EMPTY_PROMPT) = Error EMPTY_PROMPT.
Proof. reflexivity. Qed.

(** The quota test comes first: a description with both marks is a quota
    failure. *)
Example rethrown_quota_and_429 :
  rethrown (Error (lit "[429 Too Many Requests] You exceeded your current quota"))
  = Error QUOTA_MESSAGE.
Proof. reflexivity. Qed.

Example rethrown_429 :
  rethrown (Error (lit "[429 ] Resource exhausted")) = Error RATE_LIMIT_MESSAGE.
Proof. reflexivity. Qed.

Example rethrown_other :
  rethrown (Error (lit "fetch failed")) = Error (lit "fetch failed").
Proof. reflexivity. Qed.

Example rethrown_no_message : rethrown (mkError None) = mkError None.
Proof. reflexivity. Qed.

Lemma rethrown_classify (e : JsError) :
  rethrown e =
    match classify e with
    | QuotaExhausted => Error QUOTA_MESSAGE
    | RateLimited => Error RATE_LIMIT_MESSAGE
    | OtherFailure => e
    end.
Proof.
  unfold rethrown, classify, message_and.
  destruct (message e) as [[|c m]|]; [reflexivity | | reflexivity].
  cbn [truthy andb].
  destruct (includes (c :: m) (lit "quota")); [reflexivity|].
  destruct (includes (c :: m) (lit "429")
            || includes (c :: m) (lit "Too Many Requests")); reflexivity.
Qed.

Lemma markers_differ : QUOTA_MESSAGE <> RATE_LIMIT_MESSAGE.
Proof.
  intros H. apply (f_equal (fun s => nth 3 s 0%N)) in H. discriminate H.
Qed.

(** C10.  On a prompt that is empty or made of white space only,
    generateResponse makes no model call: it logs and throws an error whose
    message is "Prompt cannot be empty". *)
Theorem C10_blank_prompt_fails_before_model
    (prompt : jsstring) (returns : jsstring -> Prog) (throws : JsError -> Prog) :
  forallb is_white prompt = true ->
  generateResponse prompt returns throws =
    ConsoleError (lit "Gemini API Error:") (Error EMPTY_PROMPT)
                 (throws (Error EMPTY_PROMPT))
  /\ message (Error EMPTY_PROMPT) = Some (lit "Prompt cannot be empty")
  /\ forall now c,
       run (generateResponse prompt (fun _ => Done) (fun _ => Done)) now c =
         (c, [LogError (lit "Gemini API Error:") (Error EMPTY_PROMPT)], []).
Proof.
  intros B. apply trim_blank in B.
  assert (G : forall r t, generateResponse prompt r t =
            ConsoleError (lit "Gemini API Error:") (Error EMPTY_PROMPT)
                         (t (Error EMPTY_PROMPT))).
  { intros r t. unfold generateResponse.
    rewrite empty_prompt_guard, B. cbn [truthy negb].
    now rewrite rethrown_empty_prompt. }
  repeat split.
  - apply G.
  - intros now c. now rewrite G.
Qed.

Lemma C10_blank_prompt_fails_before_model_witness :
  run (generateResponse (lit "   ") (fun _ => Done) (fun _ => Done))
      0%Z initialChat =
    (initialChat, [LogError (lit "Gemini API Error:") (Error EMPTY_PROMPT)], []).
Proof.
  apply (C10_blank_prompt_fails_before_model (lit "   ")
           (fun _ => Done) (fun _ => Done)).
  reflexivity.
Defined.

Lemma includes_nonempty (d needle : jsstring) :
  needle <> [] -> includes d needle = true -> d <> [].
Proof.
  intros NE I ->. destruct needle as [|x n]; [now elim NE | discriminate I].
Qed.

(** The text of the ai message of a failed generation, by the description
    of the failure. *)
Lemma shown_by_description (e : JsError) :
  let shown := message_or (rethrown e) Chat.FALLBACK_MESSAGE in
  (forall d, message e = Some d -> includes d (lit "quota") = true ->
             shown = QUOTA_MESSAGE) /\
  (forall d, message e = Some d -> includes d (lit "quota") = false ->
             includes d (lit "429") || includes d (lit "Too Many Requests")
               = true ->
             shown = RATE_LIMIT_MESSAGE) /\
  (forall d, message e = Some d -> d <> [] ->
             includes d (lit "quota") = false ->
             includes d (lit "429") || includes d (lit "Too Many Requests")
               = false ->
             shown = d) /\
  (message e = None \/ message e = Some [] -> shown = Chat.FALLBACK_MESSAGE).
Proof.
  intros shown. subst shown. unfold rethrown, message_and, message_or.
  repeat split.
  - intros d M Q. rewrite M, Q.
    destruct d; [discriminate Q | reflexivity].
  - intros d M Q Rt. rewrite M, Q, Rt.
    destruct d; [discriminate Rt | reflexivity].
  - intros d M NE Q Rt. rewrite M, Q, Rt.
    destruct d; [now elim NE|]. cbn [truthy andb]. now rewrite M.
  - intros [M | M]; rewrite M; cbn [truthy andb]; now rewrite M.
Qed.

(** C5, as the code has it.  The failure of a generation call is classified
    by its description, and the description of a quota or rate-limit failure
    does not reach the user: a description containing "quota" is replaced by
    the quota marker text, one containing "429" or "Too Many Requests" and
    not "quota" by the rate-limit marker text, a different text; any other
    failure is shown with its own description, or the fallback text when it
    has none.  In every class the failure is final: the model is not called
    again, nothing is written and no call is left outstanding. *)
Theorem C5_failure_surfaced (w : World) :
  reachable w ->
  loading (chat w) = true ->
  (exists i, forall e, exists w',
     step w (Settle i (GenerateContentReply (Rejected e))) = Some w') /\
  (forall i e w',
     step w (Settle i (GenerateContentReply (Rejected e))) = Some w' ->
     exists shown,
       messages (chat w') = messages (chat w) ++ [mkMsg shown sender_ai] /\
       (forall d, message e = Some d -> includes d (lit "quota") = true ->
                  shown = QUOTA_MESSAGE) /\
       (forall d, message e = Some d -> includes d (lit "quota") = false ->
                  includes d (lit "429")
                  || includes d (lit "Too Many Requests") = true ->
                  shown = RATE_LIMIT_MESSAGE) /\
       (forall d, message e = Some d -> d <> [] ->
                  includes d (lit "quota") = false ->
                  includes d (lit "429")
                  || includes d (lit "Too Many Requests") = false ->
                  shown = d) /\
       (message e = None \/ message e = Some [] ->
        shown = Chat.FALLBACK_MESSAGE) /\
       filter is_invocation (trace w') = filter is_invocation (trace w) /\
       filter is_write (trace w') = filter is_write (trace w) /\
       outstanding (pending w') = 0 /\
       loading (chat w') = false) /\
  QUOTA_MESSAGE <> RATE_LIMIT_MESSAGE /\
  (forall prompt returns throws,
     trim prompt <> [] ->
     exists k,
       generateResponse prompt returns throws = AwaitGenerateContent prompt k /\
       forall e, k (Rejected e) =
                   ConsoleError (lit "Gemini API Error:") e
                                (throws (rethrown e))).
Proof.
  intros R L. destruct (reachable_invariant w R) as (F & O & _).
  split; [|split; [|split; [exact markers_differ|]]].
  - rewrite L in O.
    destruct (outstanding_found (pending w)) as (i & msg & k & E); [lia|].
    exists i. intros e. simpl. rewrite E. simpl. eauto.
  - intros i e w' S.
    pose proof (reachable_transition w _ w' R S) as T.
    destruct (reachable_invariant w' (reachable_step w _ w' R S))
      as (_ & O' & _).
    inversion T; subst. cbn [chat messages loading trace pending] in *.
    eexists. split; [reflexivity|].
    destruct (shown_by_description e) as (Q & Rt & Own & Fb).
    repeat (split; [assumption|]).
    rewrite !filter_app. cbn [filter is_invocation is_write].
    rewrite !app_nil_r. repeat split. exact O'.
  - intros prompt returns throws NE. apply truthy_nonempty in NE.
    unfold generateResponse. rewrite empty_prompt_guard, NE. simpl.
    eexists. split; reflexivity.
Qed.

Lemma C5_failure_surfaced_witness :
  let alice := mkUser 1 (lit "alice") in
  let e := Error (lit "[429 Too Many Requests] slow down") in
  exists w w',
    steps (initialWorld [] 0) [ Render alice; Change (lit "hi"); Send ]
      = Some w /\
    step w (Settle 1 (GenerateContentReply (Rejected e))) = Some w' /\
    messages (chat w') =
      [ mkMsg (lit "hi") sender_user; mkMsg RATE_LIMIT_MESSAGE sender_ai ].
Proof.
  intros alice e. do 2 eexists.
  match goal with |- ?A /\ ?B /\ _ =>
    assert (HA : A) by reflexivity; assert (HB : B) by reflexivity
  end.
  split; [exact HA|]. split; [exact HB|].
  match type of HB with step ?w ?l = Some ?w' =>
    destruct (C5_failure_surfaced w) as (_ & Shown & _)
  end.
  - apply reachable_steps with
      (initialWorld [] 0) [ Render alice; Change (lit "hi"); Send ];
      [apply reachable_initial | reflexivity].
  - reflexivity.
  - destruct (Shown _ _ _ HB) as (shown & M & _ & Rt & _).
    rewrite M. rewrite (Rt _ eq_refl eq_refl eq_refl). reflexivity.
Defined.

(** C5 as stated fails for a quota failure: the description of the service
    is not what the user reads, nor part of it. *)
Lemma C5_description_replaced_counterexample :
  let alice := mkUser 1 (lit "alice") in
  let description := lit "You exceeded your current quota" in
  exists w w' shown,
    steps (initialWorld [] 0) [ Render alice; Change (lit "hi"); Send ]
      = Some w /\
    step w (Settle 1 (GenerateContentReply (Rejected (Error description))))
      = Some w' /\
    messages (chat w') =
      [ mkMsg (lit "hi") sender_user; mkMsg shown sender_ai ] /\
    shown = QUOTA_MESSAGE /\
    shown <> description /\
    includes shown description = false.
Proof.
  intros alice description. do 3 eexists.
  split; [reflexivity|]. split; [reflexivity|]. split; [reflexivity|].
  split; [reflexivity|]. split; [|reflexivity].
  intros H. apply (f_equal (fun s => nth 0 s 0%N)) in H. discriminate H.
Qed.

End GeminiFacts.

(* ------------------------------------------------------------------ *)
(** ** The history load *)

Section History.

Import Firestore.

Lemma eqb_eq (a b : jsstring) : Js.eqb a b = true <-> a = b.
Proof.
  revert b. induction a as [|x a IH]; intros [|y b]; simpl;
    try (split; [discriminate | discriminate]); [tauto|].
  rewrite andb_true_iff, N.eqb_eq, IH. split.
  - now intros [-> ->].
  - intros H. injection H. auto.
Qed.

Lemma query_In (chats0 : list ChatDoc) (owner : jsstring) (d : ChatDoc) :
  In d (query chats0 owner) <-> In d chats0 /\ userId d = owner.
Proof.
  unfold query. split.
  - intros I. apply (Permutation_in _ (orderBy_perm _)) in I.
    unfold where_userId in I. apply filter_In in I.
    now rewrite eqb_eq in I.
  - intros [I E].
    apply (Permutation_in _ (Permutation_sym (orderBy_perm _))).
    apply filter_In. now rewrite eqb_eq.
Qed.

(** C2.  The first render for a user loads the history: when the query
    succeeds the message sequence is the flattening of the owner's N stored
    turns, oldest first, so it has 2N messages, each turn giving the user
    message of its prompt and then the ai message of its response. *)
Theorem C2_history_load (w : World) (u : User) :
  deps_changed (prop_user w) u = true ->
  let turns := query (chats w) (uid u) in
  let N := List.length (where_userId (uid u) (chats w)) in
  exists w',
    steps w [ Render u; Settle (List.length (pending w)) (GetDocsReply None) ]
      = Some w' /\
    messages (chat w') =
      flat_map (fun t => [ mkMsg (userPrompt t) sender_user;
                           mkMsg (aiResponse t) sender_ai ]) turns /\
    List.length (messages (chat w')) = 2 * N /\
    Permutation turns (where_userId (uid u) (chats w)) /\
    (forall t, In t turns <-> In t (chats w) /\ userId t = uid u) /\
    ascending turns /\
    trace w' = trace w ++ [CallGetDocs (uid u)].
Proof.
  intros D turns N.
  destruct (step_Render_load w u D) as (k & S & Kok & _).
  rewrite (steps_cons _ _ _ _ S).
  erewrite steps_cons
    by (rewrite step_Settle_last; cbn [settle chats];
        erewrite perform_run by apply Kok; reflexivity).
  eexists. split; [reflexivity|]. cbn [chat messages trace].
  rewrite app_nil_r.
  split; [reflexivity|].
  split.
  { unfold N. rewrite flatten_length. now rewrite query_length. }
  split; [apply orderBy_perm|].
  split; [intros t; apply query_In|].
  split; [apply orderBy_ascending | reflexivity].
Qed.

Lemma C2_history_load_witness :
  let alice := mkUser 1 (lit "alice") in
  let w := initialWorld
             [ mkDoc (lit "alice") (lit "q2") (lit "a2") 20;
               mkDoc (lit "bob") (lit "x") (lit "y") 5;
               mkDoc (lit "alice") (lit "q1") (lit "a1") 10 ] 100 in
  exists w',
    steps w [ Render alice; Settle 0 (GetDocsReply None) ] = Some w' /\
    messages (chat w') =
      [ mkMsg (lit "q1") sender_user; mkMsg (lit "a1") sender_ai;
        mkMsg (lit "q2") sender_user; mkMsg (lit "a2") sender_ai ].
Proof.
  intros alice w.
  destruct (C2_history_load w alice) as (w' & S & M & _).
  - reflexivity.
  - exists w'. split; [exact S | exact M].
Defined.




End History.

(* ------------------------------------------------------------------ *)
(** ** The effect guard *)

Section EffectGuard.

Lemma Object_is_trans (a b c : User) :
  Object_is a b = true -> Object_is a c = true -> Object_is b c = true.
Proof.
  unfold Object_is. rewrite !Nat.eqb_eq. congruence.
Qed.

(** While every render passes the same object, the effect does not run
    again. *)
Lemma step_keeps_effect (u : User) (w : World) (l : Label) (w' : World) :
  reachable w ->
  (exists p, prop_user w = Some p /\ Object_is u p = true) ->
  renders_only u [l] = true ->
  step w l = Some w' ->
  (exists p, prop_user w' = Some p /\ Object_is u p = true) /\
  count is_query (trace w') = count is_query (trace w).
Proof.
  intros R (p & U & O) K S. pose proof (reachable_transition w l w' R S) as T.
  simpl in K. rewrite andb_true_r in K.
  inversion T; subst; simpl; try (split; [now exists p|]);
    try reflexivity;
    try (unfold count; rewrite filter_app, length_app; simpl; lia).
  - (* a render that keeps the effect *)
    split; [now exists u0 | reflexivity].
  - (* a render that runs the effect: not with the same object *)
    exfalso. match goal with D : deps_changed _ _ = true |- _ =>
      rewrite U in D; simpl in D;
      rewrite (Object_is_trans u p u0 O K) in D; discriminate D end.
Qed.

Lemma steps_keep_effect (u : User) (ls : list Label) (w w' : World) :
  reachable w ->
  (exists p, prop_user w = Some p /\ Object_is u p = true) ->
  renders_only u ls = true ->
  steps w ls = Some w' ->
  (exists p, prop_user w' = Some p /\ Object_is u p = true) /\
  count is_query (trace w') = count is_query (trace w).
Proof.
  revert w. induction ls as [|l ls IH]; intros w R U K S; simpl in S.
  - injection S as <-. now split.
  - apply andb_true_iff in K as [Kl K].
    destruct (step w l) as [w1|] eqn:E; [|discriminate].
    destruct (step_keeps_effect u w l w1 R U) as [U1 Q1]; auto.
    { simpl. now rewrite Kl. }
    destruct (IH w1) as [U2 Q2]; auto.
    { now apply reachable_step with w l. }
    split; [exact U2 | congruence].
Qed.

(** C9, as the code has it.  The guard is the dependency array of the effect:
    once a fresh component has rendered with a user object, and as long as
    every later render passes that same object, exactly one query has been
    issued; one more render with that object runs no query and leaves the
    message sequence and the pending promises as they are. *)
Theorem C9_same_user_object_no_refetch
    (chats0 : list ChatDoc) (clock0 : Z) (u u' : User)
    (ls : list Label) (w : World) :
  renders_only u ls = true ->
  Object_is u u' = true ->
  steps (initialWorld chats0 clock0) (Render u :: ls) = Some w ->
  count is_query (trace w) = 1 /\
  exists w',
    step w (Render u') = Some w' /\
    trace w' = trace w /\
    pending w' = pending w /\
    chat w' = chat w /\
    chats w' = chats w.
Proof.
  intros K O S.
  destruct (step_Render_load (initialWorld chats0 clock0) u eq_refl)
    as (k & S1 & _).
  rewrite (steps_cons _ _ _ _ S1) in S.
  destruct (steps_keep_effect u ls _ w
              (reachable_step _ _ _ (reachable_initial chats0 clock0) S1))
    as [(p & U & Op) Q]; auto.
  { exists u. split; [reflexivity|]. apply Nat.eqb_refl. }
  simpl in Q. split; [exact Q|].
  rewrite step_Render_kept
    by (rewrite U; simpl; now rewrite (Object_is_trans u p u' Op O)).
  eexists. split; [reflexivity|]. now simpl.
Qed.

Lemma C9_same_user_object_no_refetch_witness :
  let alice := mkUser 1 (lit "alice") in
  exists w w',
    steps (initialWorld [] 0)
          [ Render alice; Settle 0 (GetDocsReply None); Render alice ]
      = Some w /\
    step w (Render alice) = Some w' /\
    count is_query (trace w) = 1 /\
    trace w' = trace w.
Proof.
  intros alice. eexists.
  destruct (C9_same_user_object_no_refetch [] 0 alice alice
              [Settle 0 (GetDocsReply None); Render alice] _
              eq_refl eq_refl eq_refl)
    as (Q & w' & S & T & _).
  exists w'. split; [reflexivity | split; [exact S | split; [exact Q | exact T]]].
Defined.

(** C9 as stated fails when the same owner comes as another user object: the
    effect runs again and a second query is issued. *)
Lemma C9_same_owner_two_queries_counterexample :
  let first := mkUser 1 (lit "alice") in
  let second := mkUser 2 (lit "alice") in
  uid first = uid second /\
  exists w,
    steps (initialWorld [] 0) [ Render first; Render second ] = Some w /\
    trace w = [ CallGetDocs (lit "alice"); CallGetDocs (lit "alice") ] /\
    count is_query (trace w) = 2 /\
    count is_query (trace w) <> 1.
Proof.
  intros first second. split; [reflexivity|].
  eexists. split; [reflexivity|]. repeat split. discriminate.
Qed.

End EffectGuard.

(* ------------------------------------------------------------------ *)
(** ** One send at a time; the message sequence *)

Section Controller.

(** C7.  In every reachable world at most one generation call is
    outstanding, and the in-flight flag is set exactly while one is.  While
    it is set a send is refused and leaves the world as it was, pending
    promises included; the outstanding call can settle either way, each way
    clears the flag, and no other step clears it. *)
Theorem C7_single_flight (w : World) :
  reachable w ->
  outstanding (pending w) <= 1 /\
  (loading (chat w) = true <-> outstanding (pending w) = 1) /\
  (loading (chat w) = true -> step w Send = Some w) /\
  (loading (chat w) = true ->
   exists i, forall r, exists w',
     step w (Settle i (GenerateContentReply r)) = Some w' /\
     loading (chat w') = false /\
     outstanding (pending w') = 0) /\
  (forall l w',
     loading (chat w) = true -> step w l = Some w' ->
     (loading (chat w') = false <->
      exists i r, l = Settle i (GenerateContentReply r))).
Proof.
  intros R. destruct (reachable_invariant w R) as (F & O & P).
  split; [now apply outstanding_bound|].
  split; [rewrite O; destruct (loading (chat w)); split; congruence|].
  split.
  { intros L. destruct (prop_user w) as [u|] eqn:U; [|now elim (P L)].
    apply step_Send_ignored with u; auto. }
  split.
  { intros L. rewrite L in O.
    destruct (outstanding_found (pending w)) as (i & msg & k & E); [lia|].
    exists i. intros r.
    assert (S : exists w', step w (Settle i (GenerateContentReply r)) = Some w').
    { simpl. rewrite E. simpl. eauto. }
    destruct S as (w' & S). exists w'. split; [exact S|].
    assert (L' : loading (chat w') = false).
    { pose proof (reachable_transition w _ w' R S) as T.
      inversion T; subst; reflexivity. }
    split; [exact L'|].
    destruct (reachable_invariant w' (reachable_step w _ w' R S)) as (_ & O' & _).
    now rewrite O', L'. }
  intros l w' L S. pose proof (reachable_transition w l w' R S) as T.
  inversion T; subst; simpl; (split; [intros C | intros (j & r' & C)]);
    try congruence; try discriminate C; try reflexivity; eauto.
Qed.

Lemma C7_single_flight_witness :
  let alice := mkUser 1 (lit "alice") in
  exists w,
    steps (initialWorld [] 0) [ Render alice; Change (lit "hi"); Send ]
      = Some w /\
    outstanding (pending w) <= 1 /\
    (loading (chat w) = true -> step w Send = Some w).
Proof.
  intros alice. eexists. split; [reflexivity|].
  match goal with |- outstanding (pending ?w) <= 1 /\ _ =>
    destruct (C7_single_flight w) as (B & _ & S & _)
  end.
  - apply reachable_steps with
      (initialWorld [] 0) [ Render alice; Change (lit "hi"); Send ];
      [apply reachable_initial | reflexivity].
  - split; [exact B | exact S].
Defined.

(** C6, as the code has it.  A step leaves the message sequence unchanged,
    or appends one message to it (the user message when a send starts, the
    response when its generation succeeds, with the write of that turn, or
    an error text when it fails, with no write), or, when a history query
    succeeds, replaces it by the flattening of the owner's stored turns,
    oldest first.  The prior sequence is a prefix of the new one after every
    step but a history load that succeeds on a sequence that is not empty. *)
Theorem C6_append_or_replace (w : World) (l : Label) (w' : World) :
  reachable w ->
  step w l = Some w' ->
  ( messages (chat w') = messages (chat w)
    \/ (exists m,
          messages (chat w') = messages (chat w) ++ [m] /\
          ( (l = Send /\ m = mkMsg (trim (input (chat w))) sender_user)
            \/ (exists i aiText turn,
                  l = Settle i (GenerateContentReply (Fulfilled aiText)) /\
                  m = mkMsg aiText sender_ai /\
                  aiResponse turn = aiText /\
                  trace w' = trace w ++ [CallAddDoc turn])
            \/ (exists i e,
                  l = Settle i (GenerateContentReply (Rejected e)) /\
                  m = mkMsg (message_or (Gemini.rethrown e)
                                        Chat.FALLBACK_MESSAGE) sender_ai /\
                  count is_write (trace w') = count is_write (trace w)) ))
    \/ (exists i owner k,
          l = Settle i (GetDocsReply None) /\
          nth_error (pending w) i = Some (GetDocsCall owner k) /\
          messages (chat w') = flatten (Firestore.query (chats w) owner) /\
          ascending (Firestore.query (chats w) owner)) )
  /\
  ( (forall i, l <> Settle i (GetDocsReply None)) \/ messages (chat w) = [] ->
    prefix_of (messages (chat w)) (messages (chat w')) ).
Proof.
  intros R S. pose proof (reachable_transition w l w' R S) as T.
  assert (Same : forall m : list DisplayMessage, prefix_of m m).
  { intros m. exists []. now rewrite app_nil_r. }
  assert (More : forall (m : list DisplayMessage) x, prefix_of m (m ++ [x])).
  { intros m x. now exists [x]. }
  inversion T; subst; simpl; split;
    try (left; reflexivity); try (intros _; apply Same);
    try (intros _; apply More).
  - (* a send past the guard *)
    right. left. eexists. split; [reflexivity|]. left. now split.
  - (* the generation succeeded *)
    right. left. eexists. split; [reflexivity|]. right. left.
    do 3 eexists. split; [reflexivity|]. split; [reflexivity|].
    split; [|reflexivity]. reflexivity.
  - (* the generation failed *)
    right. left. eexists. split; [reflexivity|]. right. right.
    do 2 eexists. split; [reflexivity|]. split; [reflexivity|].
    unfold count. rewrite filter_app, length_app. simpl. lia.
  - (* the history arrived *)
    right. right. do 3 eexists. split; [reflexivity|].
    split; [eassumption|]. split; [reflexivity | apply orderBy_ascending].
  - intros [NL | E].
    + now elim (NL i).
    + rewrite E. now exists (flatten (Firestore.query (chats w) owner)).
Qed.

Lemma C6_append_or_replace_witness :
  let alice := mkUser 1 (lit "alice") in
  exists w w',
    steps (initialWorld [] 0) [ Render alice; Change (lit "hi") ] = Some w /\
    step w Send = Some w' /\
    prefix_of (messages (chat w)) (messages (chat w')).
Proof.
  intros alice. do 2 eexists. split; [reflexivity|]. split; [reflexivity|].
  eapply C6_append_or_replace with (l := Send).
  - apply reachable_steps with
      (initialWorld [] 0) [ Render alice; Change (lit "hi") ];
      [apply reachable_initial | reflexivity].
  - reflexivity.
  - left. discriminate.
Defined.

(** C6 as stated fails when the history arrives after a send has started:
    the user message already shown is replaced by the loaded history, here
    an empty one. *)
Lemma C6_history_replaces_counterexample :
  let alice := mkUser 1 (lit "alice") in
  exists w w',
    steps (initialWorld [] 0) [ Render alice; Change (lit "hi"); Send ]
      = Some w /\
    reachable w /\
    step w (Settle 0 (GetDocsReply None)) = Some w' /\
    messages (chat w) = [ mkMsg (lit "hi") sender_user ] /\
    messages (chat w') = [] /\
    ~ prefix_of (messages (chat w)) (messages (chat w')).
Proof.
  intros alice. do 2 eexists. split; [reflexivity|]. split.
  { apply reachable_steps with
      (initialWorld [] 0) [ Render alice; Change (lit "hi"); Send ];
      [apply reachable_initial | reflexivity]. }
  split; [reflexivity|]. split; [reflexivity|]. split; [reflexivity|].
  intros (tl & E). discriminate E.
Qed.

(** The messages of a failed send belong to no turn: here the collection is
    empty and stays so, no write is attempted or pending, and the sequence
    holds the prompt and the error text. *)
Lemma failed_send_is_no_turn :
  let alice := mkUser 1 (lit "alice") in
  exists w,
    steps (initialWorld [] 0)
          [ Render alice; Settle 0 (GetDocsReply None); Change (lit "hi"); Send;
            Settle 0 (GenerateContentReply (Rejected (Error (lit "fetch failed")))) ]
      = Some w /\
    messages (chat w) =
      [ mkMsg (lit "hi") sender_user; mkMsg (lit "fetch failed") sender_ai ] /\
    chats w = [] /\
    pending w = [] /\
    count is_write (trace w) = 0.
Proof.
  intros alice. eexists. split; [reflexivity|]. repeat split.
Qed.

End Controller.

(* ------------------------------------------------------------------ *)
(** ** Beyond the send and the load: the page, the writes, the reload *)

Section Page.

Lemma steps_app (w : World) (ls1 ls2 : list Label) :
  steps w (ls1 ++ ls2) =
    match steps w ls1 with
    | Some w1 => steps w1 ls2
    | None => None
    end.
Proof.
  revert w. induction ls1 as [|l ls1 IH]; intros w; simpl; [reflexivity|].
  destruct (step w l); [apply IH | reflexivity].
Qed.

(** A send, then its generation succeeding: the world reached, written out. *)
Lemma send_generated (w : World) (u : User) (aiText : jsstring) (dt : N) :
  prop_user w = Some u ->
  trim (input (chat w)) <> [] ->
  loading (chat w) = false ->
  let userMessage := trim (input (chat w)) in
  let turn := mkDoc (uid u) userMessage aiText (clock w + Z.of_N dt) in
  exists h,
    steps w [ Send; Tick dt;
              Settle (List.length (pending w))
                     (GenerateContentReply (Fulfilled aiText)) ] =
      Some (mkWorld
              (mkChat (messages (chat w) ++
                         [ mkMsg userMessage sender_user;
                           mkMsg aiText sender_ai ]) [] false)
              (Some u) (pending w ++ [AddDocCall turn h]) (chats w)
              (clock w + Z.of_N dt)
              (trace w ++ [ CallGenerateContent userMessage; CallAddDoc turn ]))
    /\ write_handler_spec h.
Proof.
  intros U NE L userMessage turn.
  destruct (step_Send_accepted w u U NE L) as (k & S & Kok & _).
  destruct (Kok aiText (clock w + Z.of_N dt)%Z
              (mkChat (messages (chat w) ++ [mkMsg userMessage sender_user])
                      [] true)) as (h & R & H).
  exists h. split; [|exact H].
  rewrite (steps_cons _ _ _ _ S).
  erewrite steps_cons
    by (cbn [step chat prop_user pending chats clock trace]; reflexivity).
  erewrite steps_cons
    by (rewrite step_Settle_last; cbn [settle];
        erewrite perform_run by exact R; reflexivity).
  cbn [steps chat messages input prop_user pending chats clock trace].
  now rewrite <- !app_assoc.
Qed.

(** X1.  The button is disabled exactly when a call of handleSend would be
    refused: with the button disabled the call leaves the world as it is,
    with the button enabled it starts a send. *)
Theorem X1_button_matches_guard (w : World) (u : User) :
  prop_user w = Some u ->
  (ChatView.button_disabled (chat w) = true <-> step w Send = Some w) /\
  (ChatView.button_disabled (chat w) = false ->
   exists w',
     step w Send = Some w' /\
     messages (chat w') =
       messages (chat w) ++ [mkMsg (trim (input (chat w))) sender_user] /\
     input (chat w') = [] /\
     loading (chat w') = true /\
     ChatView.button_disabled (chat w') = true).
Proof.
  intros U. unfold ChatView.button_disabled.
  assert (Enabled :
    loading (chat w) || negb (truthy (trim (input (chat w)))) = false ->
    exists w',
      step w Send = Some w' /\
      messages (chat w') =
        messages (chat w) ++ [mkMsg (trim (input (chat w))) sender_user] /\
      input (chat w') = [] /\
      loading (chat w') = true).
  { intros D. apply orb_false_iff in D as [L T].
    apply negb_false_iff, truthy_nonempty in T.
    destruct (step_Send_accepted w u U T L) as (k & S & _).
    eexists. split; [exact S|]. repeat split. }
  split; [split|].
  - intros D. apply step_Send_ignored with u; [exact U|].
    apply orb_true_iff in D as [L | T]; [now right | left].
    now apply negb_true_iff, truthy_false in T.
  - intros S.
    destruct (loading (chat w) || negb (truthy (trim (input (chat w)))))
      eqn:D; [reflexivity|].
    destruct (Enabled eq_refl) as (w' & S' & _ & _ & L').
    apply orb_false_iff in D as [L _].
    rewrite S in S'. injection S' as <-. congruence.
  - intros D. destruct (Enabled D) as (w' & S & M & I & L).
    exists w'. repeat split; try assumption. now rewrite L.
Qed.

Lemma X1_button_matches_guard_witness :
  let w := mkWorld (mkChat [] (lit "hi") false)
                   (Some (mkUser 1 (lit "alice"))) [] [] 0 [] in
  exists w',
    step w Send = Some w' /\
    messages (chat w') = [mkMsg (lit "hi") sender_user] /\
    ChatView.button_disabled (chat w') = true.
Proof.
  intros w.
  destruct (X1_button_matches_guard w (mkUser 1 (lit "alice")) eq_refl)
    as [_ E].
  destruct (E eq_refl) as (w' & S & M & _ & _ & D).
  exists w'. repeat split; assumption.
Defined.

(** X2.  A key press in the enabled textarea: Enter without Shift calls
    preventDefault and does what a call of handleSend does, also when that
    call is refused; any other key, and Enter with Shift, does not call
    preventDefault and leaves the world as it is. *)
Theorem X2_key_press (w : World) (u : User) (e : ChatView.KeyboardEvent) :
  prop_user w = Some u ->
  loading (chat w) = false ->
  let handleSend := Chat.handleSend u (input (chat w)) (loading (chat w)) in
  let prevented := fst (ChatView.handleKeyPress handleSend e) in
  (ChatView.key e = lit "Enter" /\ ChatView.shiftKey e = false ->
   prevented = true /\ gesture w (PressKey e) = step w Send) /\
  (ChatView.key e <> lit "Enter" \/ ChatView.shiftKey e = true ->
   prevented = false /\ gesture w (PressKey e) = Some w).
Proof.
  intros U L handleSend prevented.
  unfold prevented, gesture, ChatView.textarea_disabled,
    ChatView.handleKeyPress.
  rewrite L, U. cbn [step]. rewrite U, L. split.
  - intros [K Sh]. apply eqb_eq in K. now rewrite K, Sh.
  - intros H.
    assert (E : Js.eqb (ChatView.key e) (lit "Enter")
                && negb (ChatView.shiftKey e) = false).
    { destruct H as [K | Sh].
      - destruct (Js.eqb (ChatView.key e) (lit "Enter")) eqn:E;
          [now apply eqb_eq in E | reflexivity].
      - rewrite Sh. apply andb_false_r. }
    rewrite E. cbn [fst snd]. now rewrite perform_Done.
Qed.

Lemma X2_key_press_witness :
  let w := mkWorld (mkChat [] (lit "   ") false)
                   (Some (mkUser 1 (lit "alice"))) [] [] 0 [] in
  let enter := ChatView.mkKey (lit "Enter") false in
  fst (ChatView.handleKeyPress
         (Chat.handleSend (mkUser 1 (lit "alice")) (lit "   ") false) enter)
    = true /\
  gesture w (PressKey enter) = step w Send.
Proof.
  intros w enter.
  apply (X2_key_press w (mkUser 1 (lit "alice")) enter eq_refl eq_refl).
  split; reflexivity.
Defined.

End Page.

(* ------------------------------------------------------------------ *)
(** ** Invariants of the page and of the trace *)

Section PageInvariants.

Lemma gesture_step (w : World) (g : Gesture) (w' : World) :
  gesture w g = Some w' ->
  w' = w \/
  (exists value, g = TypeText value /\ loading (chat w) = false /\
                 step w (Change value) = Some w') \/
  (loading (chat w) = false /\ step w Send = Some w').
Proof.
  destruct g as [value | | e]; unfold gesture, ChatView.textarea_disabled.
  - destruct (loading (chat w)) eqn:L; [discriminate|]. intros S.
    right. left. now exists value.
  - unfold ChatView.button_disabled.
    destruct (loading (chat w)) eqn:L; [discriminate|]. simpl orb.
    destruct (negb (truthy (trim (input (chat w))))); [discriminate|].
    intros S. right. right. now split.
  - destruct (loading (chat w)) eqn:L; [discriminate|].
    destruct (prop_user w) as [u|] eqn:U; [|discriminate].
    unfold ChatView.handleKeyPress.
    destruct (Js.eqb (ChatView.key e) (lit "Enter")
              && negb (ChatView.shiftKey e)); cbn [snd]; intros S.
    + right. right. split; [reflexivity|]. simpl. now rewrite U, L.
    + left. rewrite perform_Done in S. now injection S.
Qed.

Lemma on_page_reachable (w : World) : on_page w -> reachable w.
Proof.
  induction 1 as [chats0 clock0 | w g w' _ IH G | w l w' _ IH _ S].
  - apply reachable_initial.
  - destruct (gesture_step w g w' G) as [-> | [(v & _ & _ & S) | [_ S]]];
      [exact IH | |]; eapply reachable_step; eauto.
  - eapply reachable_step; eauto.
Qed.

Lemma on_page_session (w : World) (ms : list Move) (w' : World) :
  on_page w -> session w ms = Some w' -> on_page w'.
Proof.
  revert w. induction ms as [|m ms IH]; intros w P S; simpl in S.
  - now injection S as <-.
  - destruct (move w m) as [w1|] eqn:E; [|discriminate].
    apply (IH w1); [|exact S].
    destruct m as [g | l]; simpl in E.
    + now apply on_page_gesture with w g.
    + destruct (is_environment l) eqn:En; [|discriminate].
      now apply on_page_environment with w l.
Qed.

(** X3.  On the page, the input box is empty for as long as a send is in
    flight: the send cleared it and the disabled textarea takes no text.  So
    when the generation settles the button is disabled again, until the user
    types. *)
Theorem X3_input_empty_in_flight (w : World) :
  on_page w ->
  loading (chat w) = true ->
  input (chat w) = [] /\
  forall i r w',
    step w (Settle i (GenerateContentReply r)) = Some w' ->
    input (chat w') = [] /\ ChatView.button_disabled (chat w') = true.
Proof.
  intros P L.
  assert (I : input (chat w) = []).
  { revert L.
    induction P as [chats0 clock0 | w g w' P IH G | w l w' P IH E S].
    - discriminate.
    - destruct (gesture_step w g w' G) as [-> | [(v & _ & L & S) | [L S]]];
        [exact IH | |]; intros L';
        pose proof (reachable_transition w _ w' (on_page_reachable w P) S) as T;
        inversion T; subst; simpl in *; congruence.
    - intros L'.
      pose proof (reachable_transition w _ w' (on_page_reachable w P) S) as T.
      inversion T; subst; simpl in *; try discriminate; auto. }
  split; [exact I|].
  intros i r w' S.
  pose proof (reachable_transition w _ w' (on_page_reachable w P) S) as T.
  unfold ChatView.button_disabled.
  inversion T; subst; simpl; rewrite I; split; reflexivity.
Qed.

Lemma X3_input_empty_in_flight_witness :
  exists w,
    session (initialWorld [] 0)
            [ ByEnvironment (Render (mkUser 1 (lit "alice")));
              ByUser (TypeText (lit "hi")); ByUser ClickSend ] = Some w /\
    input (chat w) = [].
Proof.
  eexists. split; [reflexivity|].
  match goal with |- input (chat ?w) = [] =>
    apply (X3_input_empty_in_flight w)
  end.
  - apply on_page_session with
      (initialWorld [] 0)
      [ ByEnvironment (Render (mkUser 1 (lit "alice")));
        ByUser (TypeText (lit "hi")); ByUser ClickSend ];
      [apply on_page_initial | reflexivity].
  - reflexivity.
Defined.

Lemma count_app (p : Event -> bool) (tr ev : list Event) :
  count p (tr ++ ev) = count p tr + count p ev.
Proof. unfold count. now rewrite filter_app, length_app. Qed.

(** X4.  Every generation call is accounted for: the calls made are as many
    as the writes attempted, plus the failures reported in the chat, plus
    the call still outstanding, if any.  So nothing is written without a
    response, and every response is written once. *)
Theorem X4_calls_accounted (w : World) :
  reachable w ->
  count is_invocation (trace w) =
    count is_write (trace w) + count is_generation_failure (trace w)
    + outstanding (pending w).
Proof.
  induction 1 as [chats0 clock0 | w l w' R IH S]; [reflexivity|].
  pose proof (reachable_transition w l w' R S) as T.
  inversion T; subst; cbn [trace pending]; try exact IH;
    rewrite ?count_app, ?outstanding_added;
    try match goal with
        | H : nth_error (pending w) _ = Some _ |- _ =>
            let Rm := fresh "Rm" in
            pose proof (outstanding_remove _ _ _ H) as Rm; simpl in Rm
        end;
    unfold count in *; simpl; lia.
Qed.

Lemma X4_calls_accounted_witness :
  exists w,
    steps (initialWorld [] 0)
          [ Render (mkUser 1 (lit "alice")); Change (lit "hi"); Send;
            Settle 1 (GenerateContentReply (Fulfilled (lit "ok"))) ] = Some w /\
    count is_invocation (trace w) =
      count is_write (trace w) + count is_generation_failure (trace w)
      + outstanding (pending w).
Proof.
  eexists. split; [reflexivity|].
  apply X4_calls_accounted.
  apply reachable_steps with
    (initialWorld [] 0)
    [ Render (mkUser 1 (lit "alice")); Change (lit "hi"); Send;
      Settle 1 (GenerateContentReply (Fulfilled (lit "ok"))) ];
    [apply reachable_initial | reflexivity].
Defined.

(** X5.  Every prompt the chat sends to the model is a trimmed, non-empty
    string, so from the chat the empty-prompt error of generateResponse
    never arises. *)
Theorem X5_prompts_trimmed (w : World) (prompt : jsstring) :
  reachable w ->
  In (CallGenerateContent prompt) (trace w) ->
  prompt <> [] /\ trim prompt = prompt /\
  forall returns throws,
    exists k, Gemini.generateResponse prompt returns throws
              = AwaitGenerateContent prompt k.
Proof.
  intros R I.
  assert (A : prompt <> [] /\ trim prompt = prompt).
  { revert I. induction R as [chats0 clock0 | w l w' R IH S]; [intros []|].
    pose proof (reachable_transition w l w' R S) as T.
    inversion T; subst; cbn [trace]; try exact IH;
      intros I; apply in_app_or in I as [I | I]; auto;
      simpl in I; repeat (destruct I as [I | I]; try discriminate I);
      try contradiction.
    injection I as <-. split; [assumption | apply trim_idempotent]. }
  destruct A as [NE Tr]. repeat split; try assumption.
  intros returns throws. unfold Gemini.generateResponse.
  rewrite empty_prompt_guard, Tr.
  apply truthy_nonempty in NE. rewrite NE. simpl. eauto.
Qed.

Lemma X5_prompts_trimmed_witness :
  exists w,
    steps (initialWorld [] 0)
          [ Render (mkUser 1 (lit "alice")); Change (lit "  hi "); Send ]
      = Some w /\
    In (CallGenerateContent (lit "hi")) (trace w) /\
    lit "hi" <> [] /\ trim (lit "hi") = lit "hi".
Proof.
  eexists. split; [reflexivity|].
  match goal with |- In _ (trace ?w) /\ _ =>
    destruct (X5_prompts_trimmed w (lit "hi")) as (NE & Tr & _)
  end.
  - apply reachable_steps with
      (initialWorld [] 0)
      [ Render (mkUser 1 (lit "alice")); Change (lit "  hi "); Send ];
      [apply reachable_initial | reflexivity].
  - right. left. reflexivity.
  - split; [right; left; reflexivity | split; assumption].
Defined.

End PageInvariants.

(* ------------------------------------------------------------------ *)
(** ** Writes and reloads *)

Section Reload.

Import Firestore.

Lemma insert_before_last (x d : ChatDoc) (l : list ChatDoc) :
  (timestamp x <= timestamp d)%Z -> insert x (l ++ [d]) = insert x l ++ [d].
Proof.
  intros Le. induction l as [|y l IH]; simpl.
  - apply Z.leb_le in Le. now rewrite Le.
  - destruct (timestamp x <=? timestamp y)%Z; [reflexivity | now rewrite IH].
Qed.

Lemma sort_into_last (l acc : list ChatDoc) (d : ChatDoc) :
  (forall x, In x l -> (timestamp x <= timestamp d)%Z) ->
  fold_right insert (acc ++ [d]) l = fold_right insert acc l ++ [d].
Proof.
  induction l as [|x l IH]; intros Le; simpl; [reflexivity|].
  rewrite IH by (intros y I; apply Le; now right).
  apply insert_before_last, Le. now left.
Qed.

Lemma where_userId_In (owner : jsstring) (l : list ChatDoc) (d : ChatDoc) :
  In d (where_userId owner l) <-> In d l /\ userId d = owner.
Proof. unfold where_userId. now rewrite filter_In, eqb_eq. Qed.

Lemma where_userId_own (owner : jsstring) (l tl : list ChatDoc) :
  Forall (fun d => userId d = owner) tl ->
  where_userId owner (l ++ tl) = where_userId owner l ++ tl.
Proof.
  intros F. unfold where_userId. rewrite filter_app. f_equal.
  induction F as [|d tl E _ IH]; simpl; [reflexivity|].
  apply eqb_eq in E. now rewrite E, IH.
Qed.

(** The newest turn of the owner comes last in the loaded history. *)
Lemma query_newest (chats0 : list ChatDoc) (d : ChatDoc) :
  (forall x, In x chats0 -> userId x = userId d ->
             (timestamp x <= timestamp d)%Z) ->
  query (chats0 ++ [d]) (userId d) = query chats0 (userId d) ++ [d].
Proof.
  intros Le. unfold query, orderBy_timestamp_asc.
  rewrite where_userId_own by now repeat constructor.
  rewrite fold_right_app. simpl.
  apply (sort_into_last _ [] d).
  intros x I. apply where_userId_In in I as [I E]. now apply Le.
Qed.

(** Two turns of the owner stored newest first still load oldest first. *)
Lemma query_two_newest (chats0 : list ChatDoc) (d1 d2 : ChatDoc) :
  userId d2 = userId d1 ->
  (timestamp d1 < timestamp d2)%Z ->
  (forall x, In x chats0 -> userId x = userId d1 ->
             (timestamp x <= timestamp d1)%Z) ->
  query (chats0 ++ [d2; d1]) (userId d1)
  = query chats0 (userId d1) ++ [d1; d2].
Proof.
  intros E Lt Le. unfold query, orderBy_timestamp_asc.
  rewrite where_userId_own by (repeat constructor; assumption).
  rewrite fold_right_app. simpl.
  apply Z.leb_gt in Lt as Gt. rewrite Gt.
  change [d1; d2] with ([d1] ++ [d2]).
  rewrite sort_into_last.
  - rewrite (sort_into_last _ [] d1); [now rewrite <- app_assoc|].
    intros x I. apply where_userId_In in I as [I Ex]. now apply Le.
  - intros x I. apply where_userId_In in I as [I Ex].
    specialize (Le x I Ex). lia.
Qed.

Lemma flatten_app (l1 l2 : list ChatDoc) :
  flatten (l1 ++ l2) = flatten l1 ++ flatten l2.
Proof. apply flat_map_app. Qed.

Lemma ascending_around (l1 l2 : list ChatDoc) (d : ChatDoc) :
  ascending (l1 ++ d :: l2) ->
  ascending l1 /\ Forall (fun y => (timestamp d <= timestamp y)%Z) l2.
Proof.
  unfold ascending. induction l1 as [|x l1 IH]; simpl; intros A.
  - inversion A; subst. split; [constructor | assumption].
  - inversion A as [|? ? A' F]; subst. destruct (IH A') as [A1 F2].
    split; [|exact F2]. constructor; [exact A1|].
    apply Forall_app in F. tauto.
Qed.

(** Whatever order the store gives to turns of equal time: when a turn is
    strictly newer than all the others, every ascending reading has it
    last, after an ascending reading of the others. *)
Lemma newest_last (others loaded : list ChatDoc) (d : ChatDoc) :
  (forall x, In x others -> (timestamp x < timestamp d)%Z) ->
  Permutation loaded (others ++ [d]) ->
  ascending loaded ->
  exists old,
    Permutation old others /\ ascending old /\ loaded = old ++ [d].
Proof.
  intros Lt P A.
  assert (I : In d loaded).
  { apply (Permutation_in _ (Permutation_sym P)), in_or_app. right. now left. }
  apply in_split in I as (l1 & l2 & ->).
  destruct (ascending_around l1 l2 d A) as [A1 F2].
  assert (P' : Permutation (l1 ++ l2) others).
  { apply Permutation_cons_inv with d.
    rewrite (Permutation_middle l1 l2 d), P.
    symmetry. apply Permutation_cons_append. }
  destruct l2 as [|y l2].
  - rewrite app_nil_r in P'. now exists l1.
  - exfalso. inversion F2 as [|? ? Le _]; subst.
    assert (In y others).
    { apply (Permutation_in _ P'), in_or_app. right. now left. }
    specialize (Lt y H). lia.
Qed.

(** A fresh component that loads the history of [u]. *)
Lemma fresh_load (chats0 : list ChatDoc) (clock0 : Z) (u : User) :
  exists w,
    steps (initialWorld chats0 clock0)
          [ Render u; Settle 0 (GetDocsReply None) ] = Some w /\
    chat w = mkChat (flatten (query chats0 (uid u))) [] false.
Proof.
  eexists. split; [reflexivity|].
  cbn [chat perform run take_task initialWorld set_messages messages input
       loading initialChat clock].
  now rewrite flatten_entries.
Qed.

End Reload.

(* ------------------------------------------------------------------ *)
(** ** What is shown, what is stored, what comes back *)

Section Persistence.

Import Firestore.

(** X6.  The error bubble of a failed send is never empty: whatever the
    failure, the ai message appended has a text. *)
Theorem X6_error_bubble_has_text (w : World) (i : nat) (e : JsError) (w' : World) :
  reachable w ->
  step w (Settle i (GenerateContentReply (Rejected e))) = Some w' ->
  exists m,
    messages (chat w') = messages (chat w) ++ [m] /\
    sender m = sender_ai /\
    text m <> [].
Proof.
  intros R S. pose proof (reachable_transition w _ w' R S) as T.
  inversion T; subst. simpl. eexists. split; [reflexivity|].
  split; [reflexivity|]. simpl.
  rewrite rethrown_classify. unfold message_or.
  destruct (classify e); try discriminate.
  destruct (message e) as [[|c m]|]; discriminate.
Qed.

Lemma X6_error_bubble_has_text_witness :
  exists w w' m,
    steps (initialWorld [] 0)
          [ Render (mkUser 1 (lit "alice")); Change (lit "hi"); Send ] = Some w /\
    step w (Settle 1 (GenerateContentReply (Rejected (mkError (Some [])))))
      = Some w' /\
    messages (chat w') = messages (chat w) ++ [m] /\
    text m <> [].
Proof.
  do 2 eexists.
  match goal with |- exists m, ?A /\ ?B /\ _ =>
    assert (HA : A) by reflexivity; assert (HB : B) by reflexivity
  end.
  match type of HB with step ?w ?l = Some ?w' =>
    destruct (X6_error_bubble_has_text w 1 (mkError (Some [])) w')
      as (m & M & _ & Tx)
  end.
  - apply reachable_steps with
      (initialWorld [] 0)
      [ Render (mkUser 1 (lit "alice")); Change (lit "hi"); Send ];
      [apply reachable_initial | reflexivity].
  - exact HB.
  - exists m. repeat split; assumption.
Defined.

(** X7.  What a successful send shows is what a reload brings back: once
    the write has succeeded, a fresh component of the same user loads the
    earlier history followed by the prompt and the response, provided every
    stored turn of the owner is strictly older than the new one.  This does
    not depend on the order the store gives to turns of equal time: every
    ascending reading of the owner's turns is an ascending reading of the
    earlier ones followed by the new turn.  When the session had started
    from the loaded history, the reload shows the sequence of the
    session. *)
Theorem X7_reload_round_trip
    (w : World) (u : User) (aiText : jsstring) (dt : N) (clock1 : Z) :
  prop_user w = Some u ->
  trim (input (chat w)) <> [] ->
  loading (chat w) = false ->
  (forall d, In d (chats w) -> userId d = uid u ->
             (timestamp d < clock w + Z.of_N dt)%Z) ->
  let userMessage := trim (input (chat w)) in
  let turn := mkDoc (uid u) userMessage aiText (clock w + Z.of_N dt) in
  exists w' w2,
    steps w [ Send; Tick dt;
              Settle (List.length (pending w))
                     (GenerateContentReply (Fulfilled aiText));
              Settle (List.length (pending w)) (AddDocReply None) ] = Some w' /\
    chats w' = chats w ++ [turn] /\
    (forall loaded,
       Permutation loaded (where_userId (uid u) (chats w')) ->
       ascending loaded ->
       exists old,
         Permutation old (where_userId (uid u) (chats w)) /\
         ascending old /\
         loaded = old ++ [turn] /\
         flatten loaded =
           flatten old ++
             [ mkMsg userMessage sender_user; mkMsg aiText sender_ai ]) /\
    steps (initialWorld (chats w') clock1)
          [ Render u; Settle 0 (GetDocsReply None) ] = Some w2 /\
    messages (chat w2) =
      flatten (query (chats w) (uid u)) ++
        [ mkMsg userMessage sender_user; mkMsg aiText sender_ai ] /\
    (messages (chat w) = flatten (query (chats w) (uid u)) ->
     messages (chat w2) = messages (chat w')).
Proof.
  intros U NE L Lt userMessage turn.
  destruct (send_generated w u aiText dt U NE L) as (h & S3 & _).
  destruct (fresh_load (chats w ++ [turn]) clock1 u) as (w2 & S2 & C2).
  eexists. exists w2. split.
  { match goal with |- steps w [?a; ?b; ?c; ?d] = _ =>
      change [a; b; c; d] with ([a; b; c] ++ [d]) end.
    rewrite steps_app, S3.
    erewrite steps_cons
      by (rewrite step_Settle_last; cbn [settle]; reflexivity).
    reflexivity. }
  cbn [chats chat messages].
  split; [reflexivity|]. split.
  { intros loaded P A.
    rewrite where_userId_own in P by now repeat constructor.
    destruct (newest_last (where_userId (uid u) (chats w)) loaded turn)
      as (old & Po & Ao & ->); auto.
    { intros x I. apply where_userId_In in I as [I E]. now apply Lt. }
    exists old. repeat split; auto. now rewrite flatten_app. }
  split; [exact S2|].
  assert (M : messages (chat w2) =
              flatten (query (chats w) (uid u)) ++
                [ mkMsg userMessage sender_user; mkMsg aiText sender_ai ]).
  { rewrite C2. cbn [messages].
    change (uid u) with (userId turn) at 1.
    rewrite query_newest; [now rewrite flatten_app|].
    intros x I E. specialize (Lt x I E). simpl. lia. }
  split; [exact M|]. intros E. now rewrite M, E.
Qed.

Lemma X7_reload_round_trip_witness :
  let alice := mkUser 1 (lit "alice") in
  let old := mkDoc (lit "alice") (lit "q") (lit "a") 10 in
  let w := mkWorld (mkChat (flatten [old]) (lit " hi ") false)
                   (Some alice) [] [old] 1000 [] in
  exists w' w2,
    steps w [ Send; Tick 5;
              Settle 0 (GenerateContentReply (Fulfilled (lit "hello")));
              Settle 0 (AddDocReply None) ] = Some w' /\
    steps (initialWorld (chats w') 2000)
          [ Render alice; Settle 0 (GetDocsReply None) ] = Some w2 /\
    messages (chat w2) = messages (chat w').
Proof.
  intros alice old w.
  destruct (X7_reload_round_trip w alice (lit "hello") 5 2000)
    as (w' & w2 & S & _ & _ & S2 & _ & E).
  - reflexivity.
  - discriminate.
  - reflexivity.
  - intros d [<- | []] _. simpl. lia.
  - exists w', w2. repeat split; [exact S | exact S2 | apply E; reflexivity].
Defined.



(** X9.  A send does not wait for the write of the one before, and the
    writes may reach the collection in either order.  After two sends whose
    writes succeed newest first, the page shows the two exchanges in the
    order of the sends.  When time has passed between the two settlements,
    so that the second turn is stamped strictly later, and every stored
    turn of the owner is strictly older than the first, a reload shows them
    in that order too, whatever order the store gives to turns of equal
    time. *)
Theorem X9_writes_out_of_order
    (w : World) (u : User) (ai1 value ai2 : jsstring) (dt1 dt2 : N)
    (clock1 : Z) :
  prop_user w = Some u ->
  trim (input (chat w)) <> [] ->
  loading (chat w) = false ->
  trim value <> [] ->
  (0 < dt2)%N ->
  (forall d, In d (chats w) -> userId d = uid u ->
             (timestamp d < clock w + Z.of_N dt1)%Z) ->
  let n := List.length (pending w) in
  let turn1 :=
    mkDoc (uid u) (trim (input (chat w))) ai1 (clock w + Z.of_N dt1) in
  let turn2 :=
    mkDoc (uid u) (trim value) ai2 (clock w + Z.of_N dt1 + Z.of_N dt2) in
  let shown :=
    [ mkMsg (trim (input (chat w))) sender_user; mkMsg ai1 sender_ai;
      mkMsg (trim value) sender_user; mkMsg ai2 sender_ai ] in
  exists w' w2,
    steps w [ Send; Tick dt1;
              Settle n (GenerateContentReply (Fulfilled ai1));
              Change value; Send; Tick dt2;
              Settle (n + 1) (GenerateContentReply (Fulfilled ai2));
              Settle (n + 1) (AddDocReply None);
              Settle n (AddDocReply None) ] = Some w' /\
    messages (chat w') = messages (chat w) ++ shown /\
    chats w' = chats w ++ [turn2; turn1] /\
    (forall loaded,
       Permutation loaded (where_userId (uid u) (chats w')) ->
       ascending loaded ->
       exists old,
         Permutation old (where_userId (uid u) (chats w)) /\
         ascending old /\
         loaded = old ++ [turn1; turn2] /\
         flatten loaded = flatten old ++ shown) /\
    steps (initialWorld (chats w') clock1)
          [ Render u; Settle 0 (GetDocsReply None) ] = Some w2 /\
    messages (chat w2) = flatten (query (chats w) (uid u)) ++ shown.
Proof.
  intros U NE L NE2 Pos Lt n turn1 turn2 shown.
  assert (Q : query (chats w ++ [turn2; turn1]) (uid u)
              = query (chats w) (uid u) ++ [turn1; turn2]).
  { apply (query_two_newest (chats w) turn1 turn2);
      [reflexivity | simpl; lia |].
    intros x I E. specialize (Lt x I E). simpl. lia. }
  assert (Any : forall loaded,
    Permutation loaded (where_userId (uid u) (chats w ++ [turn2; turn1])) ->
    ascending loaded ->
    exists old,
      Permutation old (where_userId (uid u) (chats w)) /\
      ascending old /\
      loaded = old ++ [turn1; turn2] /\
      flatten loaded = flatten old ++ shown).
  { intros loaded P A.
    rewrite where_userId_own in P by now repeat constructor.
    assert (P2 : Permutation loaded
                   ((where_userId (uid u) (chats w) ++ [turn1]) ++ [turn2])).
    { rewrite P, <- app_assoc. apply Permutation_app_head, perm_swap. }
    destruct (newest_last (where_userId (uid u) (chats w) ++ [turn1])
                loaded turn2) as (old1 & P1 & A1 & ->); [|exact P2|exact A|].
    { intros x I. apply in_app_or in I as [I | [<- | []]].
      - apply where_userId_In in I as [I E]. specialize (Lt x I E).
        simpl. lia.
      - simpl. lia. }
    destruct (newest_last (where_userId (uid u) (chats w)) old1 turn1)
      as (old & Po & Ao & ->); [|exact P1|exact A1|].
    { intros x I. apply where_userId_In in I as [I E]. now apply Lt. }
    exists old. rewrite <- app_assoc. repeat split; auto.
    now rewrite flatten_app. }
  subst n turn1 turn2 shown.
  destruct (send_generated w u ai1 dt1 U NE L) as (h1 & S3 & _).
  match type of S3 with _ = Some ?W => set (w3 := W) in * end.
  set (w4 := mkWorld (set_input (chat w3) value) (prop_user w3) (pending w3)
               (chats w3) (clock w3) (trace w3)).
  destruct (send_generated w4 u ai2 dt2 eq_refl NE2 eq_refl) as (h2 & S5 & _).
  cbn [w4 w3 chat prop_user pending chats clock trace set_input messages
       input loading] in S5.
  rewrite length_app in S5. cbn [List.length] in S5.
  match type of Q with query ?c _ = _ =>
    destruct (fresh_load c clock1 u) as (w2 & S2 & C2)
  end.
  eexists. exists w2. split.
  { match goal with |- steps w [?a; ?b; ?c; ?d; ?e; ?f; ?g; ?i; ?j] = _ =>
      change [a; b; c; d; e; f; g; i; j]
        with ([a; b; c] ++ [d] ++ [e; f; g] ++ [i; j]) end.
    rewrite steps_app, S3.
    rewrite steps_app. cbn [steps step]. fold w4.
    rewrite steps_app, S5.
    match goal with |- context [AddDocCall ?d h1] =>
      replace (List.length (pending w) + 1)
        with (List.length (pending w ++ [AddDocCall d h1]))
        by (rewrite length_app; reflexivity)
    end.
    erewrite steps_cons
      by (rewrite step_Settle_last; cbn [settle]; reflexivity).
    cbn [chat prop_user pending chats clock trace].
    erewrite steps_cons
      by (rewrite step_Settle_last; cbn [settle]; reflexivity).
    reflexivity. }
  cbn [chat messages chats]. rewrite <- !app_assoc. cbn [app].
  split; [reflexivity|]. split; [reflexivity|]. split; [exact Any|].
  split; [exact S2|].
  rewrite C2. cbn [messages]. rewrite Q. now rewrite flatten_app.
Qed.

Lemma X9_writes_out_of_order_witness :
  let alice := mkUser 1 (lit "alice") in
  let w := mkWorld (mkChat [] (lit "one") false) (Some alice) [] [] 1000 [] in
  exists w' w2,
    steps w [ Send; Tick 0;
              Settle 0 (GenerateContentReply (Fulfilled (lit "first")));
              Change (lit "two"); Send; Tick 1;
              Settle 1 (GenerateContentReply (Fulfilled (lit "second")));
              Settle 1 (AddDocReply None);
              Settle 0 (AddDocReply None) ] = Some w' /\
    map userPrompt (chats w') = [ lit "two"; lit "one" ] /\
    steps (initialWorld (chats w') 2000)
          [ Render alice; Settle 0 (GetDocsReply None) ] = Some w2 /\
    messages (chat w2) = messages (chat w').
Proof.
  intros alice w.
  destruct (X9_writes_out_of_order w alice (lit "first") (lit "two")
              (lit "second") 0 1 2000)
    as (w' & w2 & S & M & C & _ & S2 & M2).
  - reflexivity.
  - discriminate.
  - reflexivity.
  - discriminate.
  - reflexivity.
  - intros d [].
  - exists w', w2. split; [exact S|]. split; [now rewrite C|].
    split; [exact S2|]. now rewrite M2, M.
Defined.

End Persistence.

(* ------------------------------------------------------------------ *)
(** ** Routes and the session *)

Section Routing.

Import App.

(** X10.  The route table guards the chat.  Until the first auth
    notification only the loading container is rendered and nothing
    redirects.  After it, one redirect settles every location.  At a
    location the table matches (/, /login, /register, /chat) a signed-in
    user ends on the chat with their own user object, from the login and
    register routes too, and a signed-out user ends on the login page, or on
    the register page when that is the location.  At a location the table
    does not match no page is rendered, signed in or not.  The chat is
    rendered only for the signed-in user. *)
Theorem X10_route_guard (st : AppState) (at_location : Route) :
  let w := redirect (mkAppWorld st at_location) in
  redirect w = w /\
  screen w =
    match loading st, user st, at_location with
    | true, _, _ => LoadingContainer
    | false, current, NoMatch => AppScreen current NoElement
    | false, Some u, _ => AppScreen (Some u) (ChatPage u)
    | false, None, RegisterRoute => AppScreen None RegisterPage
    | false, None, _ => AppScreen None LoginPage
    end /\
  (forall u, screen w = AppScreen (user st) (ChatPage u) -> user st = Some u) /\
  (forall n, redirects (S n) (mkAppWorld st at_location) = w).
Proof.
  intros w. subst w.
  assert (Fix : redirect (redirect (mkAppWorld st at_location))
                = redirect (mkAppWorld st at_location)).
  { destruct st as [[u|] [|]], at_location; reflexivity. }
  split; [exact Fix|]. split; [|split].
  - destruct st as [[u|] [|]], at_location; reflexivity.
  - intros u. destruct st as [[u'|] [|]], at_location; simpl;
      unfold screen, redirect, render; simpl; intros H;
      try discriminate H; injection H; congruence.
  - intros n. induction n as [|n IH]; [reflexivity|].
    change (redirects (S (S n)) (mkAppWorld st at_location))
      with (redirects (S n) (redirect (mkAppWorld st at_location))).
    revert IH. generalize (mkAppWorld st at_location). intros w0 IH.
    clear Fix.
    assert (Fix0 : redirect (redirect w0) = redirect w0).
    { destruct w0 as [[[u|] [|]] []]; reflexivity. }
    clear IH. induction n as [|n IH]; simpl; [exact Fix0|].
    simpl in IH. now rewrite Fix0.
Qed.

End Routing.

(* ------------------------------------------------------------------ *)
(** ** Login and logout *)

Section LoginFacts.

Import Auth.

(** X12.  A login with the email or the password missing calls no service:
    the default of the submit is prevented, the error reads "Please fill in
    all fields", and the form does not enter its loading state. *)
Theorem X12_login_missing_field (mail pass : jsstring) (st : LoginState) :
  mail = [] \/ pass = [] ->
  run (handleLogin mail pass) st =
    (mkLogin (email st) (password st) (lit "Please fill in all fields")
             (loading st),
     [DefaultPrevented], None).
Proof.
  intros [-> | ->]; unfold handleLogin; simpl; [reflexivity|].
  now rewrite orb_true_r.
Qed.

Lemma X12_login_missing_field_witness :
  run (handleLogin (lit "a@b.c") []) (mkLogin (lit "a@b.c") [] [] false) =
    (mkLogin (lit "a@b.c") [] (lit "Please fill in all fields") false,
     [DefaultPrevented], None).
Proof.
  apply (X12_login_missing_field (lit "a@b.c") []
           (mkLogin (lit "a@b.c") [] [] false)).
  now right.
Defined.

(** X13.  A login with both fields makes one sign-in call with the email
    and the password as typed, clears the previous error and enters the
    loading state.  Either way the call settles the loading state is left:
    on success the handler navigates to the chat and the error stays
    empty; on failure it does not navigate and shows an error that is never
    empty, the message of the failure or "Failed to login". *)
Theorem X13_login_attempt (mail pass : jsstring) (st : LoginState) :
  mail <> [] -> pass <> [] ->
  exists k,
    run (handleLogin mail pass) st =
      (mkLogin (email st) (password st) [] true,
       [DefaultPrevented; CallSignIn mail pass], Some k) /\
    (forall st',
       run (k (Fulfilled tt)) st' =
         (mkLogin (email st') (password st') (error st') false,
          [CallNavigate App.ChatRoute], None)) /\
    (forall err st', exists shown,
       run (k (Rejected err)) st' =
         (mkLogin (email st') (password st') shown false, [], None) /\
       shown <> [] /\
       shown = match message err with
               | Some (c :: m) => c :: m
               | _ => lit "Failed to login"
               end).
Proof.
  intros M P. apply truthy_nonempty in M, P.
  unfold handleLogin. rewrite M, P. simpl.
  eexists. split; [reflexivity|]. split.
  - intros st'. reflexivity.
  - intros err st'. eexists. split; [reflexivity|].
    unfold message_or. destruct (message err) as [[|c m]|]; simpl;
      split; try reflexivity; discriminate.
Qed.

Lemma X13_login_attempt_witness :
  exists k,
    run (handleLogin (lit "a@b.c") (lit "secret"))
        (mkLogin (lit "a@b.c") (lit "secret") (lit "old error") false) =
      (mkLogin (lit "a@b.c") (lit "secret") [] true,
       [DefaultPrevented; CallSignIn (lit "a@b.c") (lit "secret")], Some k).
Proof.
  destruct (X13_login_attempt (lit "a@b.c") (lit "secret")
              (mkLogin (lit "a@b.c") (lit "secret") (lit "old error") false))
    as (k & R & _).
  - discriminate.
  - discriminate.
  - exists k. exact R.
Defined.

(** X11.  A successful login ends on the chat whichever comes first, the
    navigation of handleLogin or the auth notification: both orders reach
    the same state, which shows the chat of the user.  A failed login
    navigates nowhere. *)
Theorem X11_sign_in_reaches_chat
    (w : App.AppWorld) (u : User) (mail pass : jsstring) (st st' : LoginState) :
  mail <> [] -> pass <> [] ->
  exists k,
    snd (run (handleLogin mail pass) st) = Some k /\
    let moves := navigations (called (run (k (Fulfilled tt)) st')) in
    let signed_in := App.AuthStateChanged (Some u) in
    App.app_steps w (signed_in :: moves) = App.app_steps w (moves ++ [signed_in]) /\
    App.screen (App.app_steps w (signed_in :: moves))
      = App.AppScreen (Some u) (App.ChatPage u) /\
    forall err, navigations (called (run (k (Rejected err)) st')) = [].
Proof.
  intros M P. apply truthy_nonempty in M, P.
  unfold handleLogin. rewrite M, P. simpl.
  eexists. split; [reflexivity|]. simpl.
  repeat split; destruct w as [[[u'|] [|]] []]; reflexivity.
Qed.

Lemma X11_sign_in_reaches_chat_witness :
  let alice := mkUser 1 (lit "alice") in
  let w := App.mkAppWorld (App.mkApp None false) App.LoginRoute in
  let form := mkLogin (lit "a@b.c") (lit "secret") [] false in
  exists k,
    snd (run (handleLogin (lit "a@b.c") (lit "secret")) form) = Some k /\
    App.screen
      (App.app_steps w
         (navigations (called (run (k (Fulfilled tt)) form))
          ++ [App.AuthStateChanged (Some alice)]))
      = App.AppScreen (Some alice) (App.ChatPage alice).
Proof.
  intros alice w form.
  destruct (X11_sign_in_reaches_chat w alice (lit "a@b.c") (lit "secret")
              form form)
    as (k & R & E & Sc & _).
  - discriminate.
  - discriminate.
  - exists k. split; [exact R|]. rewrite <- E. exact Sc.
Defined.

(** X14.  handleLogout calls signOut and waits.  When the sign-out
    succeeds it navigates to /login and does nothing else, and the app ends
    on the login page whichever comes first, that navigation or the auth
    notification.  A failed logout is only logged: it navigates nowhere, so
    the app receives no event and keeps its screen. *)
Theorem X14_sign_out_reaches_login
    (w : App.AppWorld) (st : LoginState) (e : JsError) :
  exists k,
    run handleLogout st = (st, [CallSignOut], Some k) /\
    run (k (Fulfilled tt)) st = (st, [CallNavigate App.LoginRoute], None) /\
    let moves := navigations (called (run (k (Fulfilled tt)) st)) in
    let signed_out := App.AuthStateChanged None in
    moves = [App.Navigated App.LoginRoute] /\
    App.app_steps w (signed_out :: moves) = App.app_steps w (moves ++ [signed_out]) /\
    App.screen (App.app_steps w (signed_out :: moves))
      = App.AppScreen None App.LoginPage /\
    called (run (k (Rejected e)) st) = [LogAuthError (lit "Logout error:") e] /\
    App.app_steps w (navigations (called (run (k (Rejected e)) st))) = w.
Proof.
  eexists. split; [reflexivity|]. split; [reflexivity|]. simpl.
  split; [reflexivity|].
  repeat split; destruct w as [[[u'|] [|]] []]; reflexivity.
Qed.

End LoginFacts.

(* ------------------------------------------------------------------ *)
(** ** The theme *)

Section ThemeFacts.

Import Theme.

Lemma toggleTheme_changes (t : jsstring) : toggleTheme t <> t.
Proof.
  unfold toggleTheme. destruct (Js.eqb t (lit "dark")) eqn:E.
  - apply eqb_eq in E. subst t. discriminate.
  - intros <-. discriminate E.
Qed.

(** X15.  A toggle sends dark to light and every other string, light
    included, to dark.  So it always changes the theme and gives dark or
    light, and from the first toggle on the theme alternates between the
    two, whatever string was stored before. *)
Theorem X15_toggle (t : jsstring) :
  (t = lit "dark" -> toggleTheme t = lit "light") /\
  (t <> lit "dark" -> toggleTheme t = lit "dark") /\
  toggleTheme t <> t /\
  (toggleTheme t = lit "dark" \/ toggleTheme t = lit "light") /\
  toggleTheme (toggleTheme (toggleTheme t)) = toggleTheme t /\
  toggleTheme (lit "dark") = lit "light" /\
  toggleTheme (lit "light") = lit "dark".
Proof.
  split; [intros ->; reflexivity|]. split.
  { intros N. unfold toggleTheme. destruct (Js.eqb t (lit "dark")) eqn:E;
      [|reflexivity].
    apply eqb_eq in E. contradiction. }
  split; [apply toggleTheme_changes|].
  unfold toggleTheme. destruct (Js.eqb t (lit "dark")); repeat split; auto.
Qed.

Lemma theme_saved (n : nat) (w : ThemeWorld) :
  browser w = mkBrowser (Some (theme w)) (Some (theme w)) ->
  theme w <> [] ->
  browser (toggles n w) =
    mkBrowser (Some (theme (toggles n w))) (Some (theme (toggles n w)))
  /\ theme (toggles n w) <> [].
Proof.
  revert w. induction n as [|n IH]; intros w B T; simpl; [now split|].
  apply IH.
  - unfold toggle. simpl.
    destruct (Js.eqb (toggleTheme (theme w)) (theme w)) eqn:E; [|reflexivity].
    apply eqb_eq in E. now elim (toggleTheme_changes (theme w)).
  - unfold toggle, toggleTheme. simpl.
    destruct (Js.eqb (theme w) (lit "dark")); discriminate.
Qed.

(** X16.  The theme survives a reload: after the provider has mounted and
    the user has toggled any number of times, mounting the provider again on
    the same browser gives the same theme, with the same stored item and the
    same attribute on the document.  The theme is never the empty string. *)
Theorem X16_theme_reload (b : Browser) (n : nat) :
  let w := toggles n (mount b) in
  mount (browser w) = w /\
  localStorage (browser w) = Some (theme w) /\
  data_theme (browser w) = Some (theme w) /\
  theme w <> [].
Proof.
  intros w.
  assert (T0 : theme (mount b) <> [] ).
  { unfold mount, initialTheme. simpl.
    destruct (localStorage b) as [[|c s]|]; discriminate. }
  destruct (theme_saved n (mount b) eq_refl T0) as [B T].
  fold w in B, T. rewrite B. repeat split; try assumption.
  unfold mount, initialTheme, effect. simpl.
  destruct w as [t br]. simpl in *. subst br.
  destruct t as [|c t]; [contradiction|reflexivity].
Qed.

End ThemeFacts.

(* ------------------------------------------------------------------ *)
(** ** A whole session *)

Section Sessions.

Import Firestore.

(** A send, then its generation failing: the world reached, written out. *)
Lemma send_failed (w : World) (u : User) (e : JsError) (dt : N) :
  prop_user w = Some u ->
  trim (input (chat w)) <> [] ->
  loading (chat w) = false ->
  steps w [ Send; Tick dt;
            Settle (List.length (pending w))
                   (GenerateContentReply (Rejected e)) ] =
    Some (mkWorld
            (mkChat (messages (chat w) ++
                       [ mkMsg (trim (input (chat w))) sender_user;
                         mkMsg (message_or (Gemini.rethrown e)
                                           Chat.FALLBACK_MESSAGE) sender_ai ])
                    [] false)
            (Some u) (pending w) (chats w) (clock w + Z.of_N dt)
            (trace w ++
               [ CallGenerateContent (trim (input (chat w)));
                 LogError (lit "Gemini API Error:") e;
                 LogError (lit "Error generating response:")
                          (Gemini.rethrown e) ])).
Proof.
  intros U NE L.
  destruct (step_Send_accepted w u U NE L) as (k & S & _ & Kerr).
  rewrite (steps_cons _ _ _ _ S).
  erewrite steps_cons
    by (cbn [step chat prop_user pending chats clock trace]; reflexivity).
  erewrite steps_cons
    by (rewrite step_Settle_last; cbn [settle];
        erewrite perform_run by apply Kerr; reflexivity).
  cbn [steps chat messages input prop_user pending chats clock trace].
  now rewrite <- !app_assoc, app_nil_r.
Qed.

(** X17.  After any number of exchanges, one at a time, the page shows what
    it showed before followed by the two bubbles of each exchange in order,
    the prompt and then the response or the error text; the writes attempted
    are those of the exchanges that succeeded, in order, each stamped with
    the time its generation settled; and the chat is ready for the next
    send. *)
Theorem X17_session (xs : list Exchange) (w : World) (u : User) :
  prop_user w = Some u ->
  loading (chat w) = false ->
  Forall (fun x => trim (typed x) <> []) xs ->
  exists w',
    steps w (exchanges_labels (List.length (pending w)) xs) = Some w' /\
    messages (chat w') = messages (chat w) ++ flat_map exchange_messages xs /\
    filter is_write (trace w') =
      filter is_write (trace w)
      ++ map CallAddDoc (exchange_writes (uid u) (clock w) xs) /\
    loading (chat w') = false /\
    (xs <> [] -> input (chat w') = []) /\
    chats w' = chats w.
Proof.
  revert w. induction xs as [|x xs IH]; intros w U L F.
  - exists w. simpl. rewrite !app_nil_r.
    repeat split; try assumption. intros H. now elim H.
  - inversion F as [|? ? NE F']; subst.
    set (w1 := mkWorld (set_input (chat w) (typed x)) (prop_user w)
                 (pending w) (chats w) (clock w) (trace w)).
    assert (S1 : steps w [Change (typed x)] = Some w1) by reflexivity.
    cbn [exchanges_labels]. unfold exchange_labels.
    match goal with |- context [steps w ([?a; ?b; ?c; ?d] ++ ?r)] =>
      change (steps w ([a; b; c; d] ++ r))
        with (steps w ([a] ++ [b; c; d] ++ r)) end.
    rewrite steps_app, S1, steps_app.
    destruct x as [value dt [aiText | e]]; cbn [typed waited reply] in *.
    + destruct (send_generated w1 u aiText dt U NE L) as (h & S3 & _).
      cbn [w1 chat prop_user pending chats clock trace set_input messages
           input loading] in S3.
      cbn [w1 pending]. rewrite S3. clear S3.
      match goal with |- context [steps ?W _] =>
        destruct (IH W eq_refl eq_refl F') as (w' & S & M & Wr & L' & I & C)
      end.
      cbn [pending chat messages trace clock prop_user chats] in S, M, Wr, C.
      rewrite length_app in S. cbn [List.length leaves_write reply] in *.
      exists w'. split; [exact S|].
      cbn [flat_map exchange_messages exchange_writes typed waited reply map].
      rewrite M, Wr, <- !app_assoc.
      rewrite !filter_app. cbn [filter is_write app].
      rewrite <- !app_assoc. cbn [app].
      repeat split; try assumption.
      intros _. destruct xs as [|x' xs']; [|apply I; discriminate].
      simpl in S. now injection S as <-.
    + pose proof (send_failed w1 u e dt U NE L) as S3.
      cbn [w1 chat prop_user pending chats clock trace set_input messages
           input loading] in S3.
      cbn [w1 pending]. rewrite S3. clear S3.
      match goal with |- context [steps ?W _] =>
        destruct (IH W eq_refl eq_refl F') as (w' & S & M & Wr & L' & I & C)
      end.
      cbn [pending chat messages trace clock prop_user chats] in S, M, Wr, C.
      cbn [leaves_write reply]. rewrite Nat.add_0_r.
      exists w'. split; [exact S|].
      cbn [flat_map exchange_messages exchange_writes typed waited reply map].
      rewrite M, Wr, <- !app_assoc.
      rewrite !filter_app. cbn [filter is_write app].
      rewrite <- !app_assoc. cbn [app].
      repeat split; try assumption.
      intros _. destruct xs as [|x' xs']; [|apply I; discriminate].
      simpl in S. now injection S as <-.
Qed.

Lemma X17_session_witness :
  let alice := mkUser 1 (lit "alice") in
  let w := mkWorld (mkChat [] [] false) (Some alice) [] [] 1000 [] in
  let xs := [ mkExchange (lit " hi ") 5 (Fulfilled (lit "hello"));
              mkExchange (lit "again") 1 (Rejected (mkError None)) ] in
  exists w',
    steps w (exchanges_labels 0 xs) = Some w' /\
    messages (chat w') =
      [ mkMsg (lit "hi") sender_user; mkMsg (lit "hello") sender_ai;
        mkMsg (lit "again") sender_user;
        mkMsg Chat.FALLBACK_MESSAGE sender_ai ] /\
    filter is_write (trace w') =
      [ CallAddDoc (mkDoc (lit "alice") (lit "hi") (lit "hello") 1005) ].
Proof.
  intros alice w xs.
  destruct (X17_session xs w alice) as (w' & S & M & Wr & _).
  - reflexivity.
  - reflexivity.
  - repeat constructor; discriminate.
  - exists w'. split; [exact S|]. split; [exact M | exact Wr].
Defined.

(** X18.  The history can arrive after a send has started.  It then
    replaces the user message just shown, while the send goes on: the page
    shows the loaded history and, once the generation has succeeded, the
    response without its prompt, although the turn written holds both.  With
    no stored turn the page shows the welcome panel and the typing bubble
    together in the meantime. *)
Theorem X18_history_after_send
    (chats0 : list ChatDoc) (clock0 : Z) (u : User)
    (value aiText : jsstring) (dt : N) :
  trim value <> [] ->
  exists w1 w2,
    steps (initialWorld chats0 clock0)
          [ Render u; Change value; Send; Settle 0 (GetDocsReply None) ]
      = Some w1 /\
    messages (chat w1) = flatten (query chats0 (uid u)) /\
    loading (chat w1) = true /\
    (query chats0 (uid u) = [] ->
     ChatView.messages_container (chat w1)
       = [ChatView.WelcomeMessage; ChatView.Thinking]) /\
    steps w1 [ Tick dt; Settle 0 (GenerateContentReply (Fulfilled aiText)) ]
      = Some w2 /\
    messages (chat w2) =
      flatten (query chats0 (uid u)) ++ [mkMsg aiText sender_ai] /\
    In (CallAddDoc (mkDoc (uid u) (trim value) aiText (clock0 + Z.of_N dt)))
       (trace w2).
Proof.
  intros NE.
  destruct (step_Render_load (initialWorld chats0 clock0) u eq_refl)
    as (kh & S1 & Hok & _).
  cbn [initialWorld chat prop_user pending chats clock trace app] in S1.
  set (wa := mkWorld (set_input initialChat value) (Some u)
               [GetDocsCall (uid u) kh] chats0 clock0 [CallGetDocs (uid u)]).
  destruct (step_Send_accepted wa u eq_refl NE eq_refl) as (kg & S3 & Gok & _).
  cbn [wa chat prop_user pending chats clock trace set_input initialChat
       messages input app] in S3.
  destruct (Gok aiText (clock0 + Z.of_N dt)%Z
              (mkChat (flatten (query chats0 (uid u))) [] true))
    as (h & Rg & _).
  do 2 eexists. split.
  { rewrite (steps_cons _ _ _ _ S1).
    erewrite steps_cons by reflexivity. fold wa.
    rewrite (steps_cons _ _ _ _ S3).
    erewrite steps_cons
      by (cbn [step pending nth_error take_task remove_nth firstn skipn app
               settle chat prop_user chats clock trace];
          erewrite perform_run by apply Hok; reflexivity).
    reflexivity. }
  cbn [chat messages loading input pending trace chats clock prop_user].
  split; [reflexivity|]. split; [reflexivity|]. split.
  { intros E. unfold ChatView.messages_container. cbn [messages loading].
    now rewrite E. }
  split.
  { erewrite steps_cons by reflexivity.
    erewrite steps_cons
      by (cbn [step pending nth_error take_task remove_nth firstn skipn app
               settle chat prop_user chats clock trace];
          erewrite perform_run by apply Rg; reflexivity).
    reflexivity. }
  cbn [chat messages trace]. split; [reflexivity|].
  apply in_or_app. right. now left.
Qed.

Lemma X18_history_after_send_witness :
  exists w1,
    steps (initialWorld [] 0)
          [ Render (mkUser 1 (lit "alice")); Change (lit "hi"); Send;
            Settle 0 (GetDocsReply None) ] = Some w1 /\
    messages (chat w1) = [] /\
    loading (chat w1) = true.
Proof.
  destruct (X18_history_after_send [] 0 (mkUser 1 (lit "alice"))
              (lit "hi") (lit "hello") 0)
    as (w1 & w2 & S & M & L & _).
  - discriminate.
  - exists w1. split; [exact S|]. split; [exact M | exact L].
Defined.

End Sessions.
